(** * The sampling integrator of the renderer: render jobs, tiles, samples

    A shallow embedding of [src/librender/integrator.cpp]:
    - [SamplingIntegrator::SamplingIntegrator], [cancel], [render],
      [render_block] and [render_sample];
    - [MonteCarloIntegrator::MonteCarloIntegrator].

    Conventions.  Machine integers are values of [Z] with the wrap-around of
    their C++ type written out ([u32], [u64], [i32]); [size_t] is 64 bits wide.
    The classes are templates over the floating-point type: the operations
    the file uses on [ScalarFloat] form the class [ScalarFloatOps], with IEEE
    binary64 (the double-precision variants) as an instance that computes.
    Code that the file calls but does not define (the property list, the
    spiral of tiles, [should_stop], [morton_decode], the sampler, the sensor,
    the transport evaluator) enters as a parameter of the function that
    calls it.  Of [render] the branch for the CPU is modelled (lines 64-121),
    with the workers of [tbb::parallel_for] interleaved iteration by
    iteration; the branch for the GPU (lines 122-145) is not. *)

From Stdlib Require Import ZArith Floats Uint63.
From stdpp Require Import base option list gmap strings.

Local Open Scope Z_scope.

(** ** Machine integers *)

(** [(uint32_t) z] *)
Definition u32 (z : Z) : Z := z mod 2 ^ 32.

(** [(size_t) z] *)
Definition u64 (z : Z) : Z := z mod 2 ^ 64.

(** A value of type [int]: two's complement on 32 bits. *)
Definition i32 (z : Z) : Z := (z + 2 ^ 31) mod 2 ^ 32 - 2 ^ 31.

(** [(size_t) -1], the sentinel of [samples_per_pass]. *)
Definition SIZE_MAX : Z := 2 ^ 64 - 1.

(** [ScalarVector2i], [ScalarPoint2u]: two integer components. *)
Record Vector2 : Type := mkVector2 { vx : Z; vy : Z }.

(** [hprod(v)] on a [ScalarVector2i]: the product of the components,
    computed in [int]. *)
Definition hprod (v : Vector2) : Z := i32 (vx v * vy v).

(** ** The floating-point type *)

(** What the file does with a [ScalarFloat]. *)
Class ScalarFloatOps (F : Type) : Type := {
  (** [(ScalarFloat) n] for an integer [n] *)
  of_int : Z -> F;
  (** [(size_t) x] *)
  to_size_t : F -> Z;
  fadd : F -> F -> F;
  fsub : F -> F -> F;
  fmul : F -> F -> F;
  fdiv : F -> F -> F;
  (** [ceil(x)] *)
  fceil : F -> F;
  (** [rsqrt(x)] *)
  rsqrt : F -> F;
  (** [x > 0] *)
  fpositive : F -> bool;
  (** [x > y] *)
  fgt : F -> F -> bool;
  (** the literal [.5f] *)
  fhalf : F
}.

(** Integers below [bound] and their exact quotients survive the trip through
    [F]: what IEEE arithmetic gives below [2^24] in binary32 and below [2^53]
    in binary64. *)
Class ScalarFloatExact (F : Type) `{ScalarFloatOps F} (bound : Z) : Prop := {
  to_of_size_t : forall n, 0 <= n < bound -> to_size_t (of_int n) = n;
  ceil_div_exact : forall k d,
    0 < k -> 0 < d -> k * d < bound ->
    to_size_t (fceil (fdiv (of_int (k * d)) (of_int d))) = k
}.

(** *** IEEE binary64 *)

Definition b64_of_int (z : Z) : float :=
  if Z.abs z <? 2 ^ 63
  then if z <? 0 then (- PrimFloat.of_uint63 (Uint63.of_Z (- z)))%float
       else PrimFloat.of_uint63 (Uint63.of_Z z)
  else SF2Prim (binary_normalize prec emax z 0 false).

(** The integer part of a finite number (rounding toward zero). *)
Definition b64_trunc (f : float) : Z :=
  match Prim2SF f with
  | S754_finite s m e =>
      let a := if 0 <=? e then Z.pos m * 2 ^ e else Z.pos m / 2 ^ (- e) in
      if s then - a else a
  | _ => 0
  end.

(** Converting a negative or too large number to [size_t] is undefined in
    C++; here the integer part wraps. *)
Definition b64_to_size_t (f : float) : Z := u64 (b64_trunc f).

Definition b64_ceil (f : float) : float :=
  match Prim2SF f with
  | S754_finite s m e =>
      if 0 <=? e then f
      else let v := if s then Z.neg m else Z.pos m in
           let c := - ((- v) / 2 ^ (- e)) in
           if (c =? 0) && s then (- 0)%float else b64_of_int c
  | _ => f
  end.

Definition b64_rsqrt (f : float) : float := (1 / PrimFloat.sqrt f)%float.

#[export] Instance binary64 : ScalarFloatOps float := {
  of_int := b64_of_int;
  to_size_t := b64_to_size_t;
  fadd := PrimFloat.add;
  fsub := PrimFloat.sub;
  fmul := PrimFloat.mul;
  fdiv := PrimFloat.div;
  fceil := b64_ceil;
  rsqrt := b64_rsqrt;
  fpositive := fun x => PrimFloat.ltb 0%float x;
  fgt := fun x y => PrimFloat.ltb y x;
  fhalf := 0.5%float
}.

(** The bound up to which exactness of binary64 is established below, by
    running through every case. *)
Definition b64_exact_bound : Z := 4096.

(** [zseq n a] is [a; a+1; ...; a+n-1]. *)
Fixpoint zseq (n : nat) (a : Z) : list Z :=
  match n with
  | O => []
  | S n' => a :: zseq n' (a + 1)
  end.

Definition b64_quotient_ok (d k : Z) : bool :=
  to_size_t (fceil (fdiv (of_int (k * d)) (of_int d))) =? k.

Definition b64_check_quotients (B : Z) : bool :=
  forallb (fun d => forallb (b64_quotient_ok d) (zseq (Z.to_nat (B / d + 1)) 0))
          (zseq (Z.to_nat B) 1).

Definition b64_check_roundtrip (B : Z) : bool :=
  forallb (fun n => to_size_t (of_int n) =? n) (zseq (Z.to_nat B) 0).

(** ** Results of a call that may throw *)

(** The exceptions the file raises with [Throw], named after their message. *)
Inductive Error : Type :=
| SampleCountNotMultiple (total_spp samples_per_pass : Z)
    (** sample_count (%d) must be a multiple of samples_per_pass (%d). *)
| EmptyImageBlock
    (** Internal error -- generated empty image block! *)
| NotImplementedForCuda
    (** Not implemented for CUDA arrays. *)
| RrDepthNotPositive
    (** "rr_depth" must be set to a value greater than zero! *)
| MaxDepthInvalid.
    (** "max_depth" must be set to -1 (infinite) or a value >= 0 *)

Inductive Result (A : Type) : Type :=
| Ok (a : A)
| Throw (e : Error).
Arguments Ok {A} a.
Arguments Throw {A} e.

(** ** The property list *)

(** The property list a plugin is constructed from ([Properties], declared
    outside this file): names mapped to values, here one map per value type.
    A getter returns the value stored under the name, or its second argument
    when the name is absent. *)
Record Properties (F : Type) : Type := mkProperties {
  p_integers : gmap string Z;
  p_floats : gmap string F
}.
Arguments p_integers {F} _.
Arguments p_floats {F} _.

Definition size_ {F} (props : Properties F) (name : string) (def : Z) : Z :=
  default def (p_integers props !! name).

Definition int_ {F} (props : Properties F) (name : string) (def : Z) : Z :=
  default def (p_integers props !! name).

Definition float_ {F} (props : Properties F) (name : string) (def : F) : F :=
  default def (p_floats props !! name).

(** ** SamplingIntegrator: construction and cancellation *)

Record SamplingIntegrator (F : Type) : Type := mkSamplingIntegrator {
  m_block_size : Z;
  m_samples_per_pass : Z;
  m_timeout : F;
  m_stop : bool
}.
Arguments mkSamplingIntegrator {F} _ _ _ _.
Arguments m_block_size {F} _.
Arguments m_samples_per_pass {F} _.
Arguments m_timeout {F} _.
Arguments m_stop {F} _.

Section Construction.
Context {F : Type} `{ScalarFloatOps F}.

(** The macro [MTS_BLOCK_SIZE] and [math::round_to_power_of_two] are
    defined outside this file. *)
Variable MTS_BLOCK_SIZE : Z.
Variable round_to_power_of_two : Z -> Z.

(** [SamplingIntegrator::SamplingIntegrator(props)].  The constructor does
    not write [m_stop]: [stop0] is what the member holds. *)
Definition SamplingIntegrator_new (props : Properties F) (stop0 : bool)
  : SamplingIntegrator F :=
  let m_block_size0 := u32 (size_ props "block_size" MTS_BLOCK_SIZE) in
  let block_size := u32 (round_to_power_of_two m_block_size0) in
  let m_block_size1 :=
    if negb (block_size =? m_block_size0) then block_size else m_block_size0 in
  mkSamplingIntegrator
    m_block_size1
    (u32 (size_ props "samples_per_pass" SIZE_MAX))
    (float_ props "timeout" (of_int (-1)))
    stop0.

(** [SamplingIntegrator::cancel()] *)
Definition cancel (this : SamplingIntegrator F) : SamplingIntegrator F :=
  mkSamplingIntegrator (m_block_size this) (m_samples_per_pass this)
                       (m_timeout this) true.

(** ** MonteCarloIntegrator: construction *)

Record MonteCarloIntegrator : Type := mkMonteCarloIntegrator {
  mc_base : SamplingIntegrator F;
  m_rr_depth : Z;
  m_max_depth : Z
}.

(** [MonteCarloIntegrator::MonteCarloIntegrator(props)], after [Base(props)]
    has built the [SamplingIntegrator] part. *)
Definition MonteCarloIntegrator_new (props : Properties F) (stop0 : bool)
  : Result MonteCarloIntegrator :=
  let base := SamplingIntegrator_new props stop0 in
  let rr_depth := int_ props "rr_depth" 5 in
  if rr_depth <=? 0
  then Throw RrDepthNotPositive
  else
    let max_depth := int_ props "max_depth" (-1) in
    if (max_depth <? 0) && negb (max_depth =? -1)
    then Throw MaxDepthInvalid
    else Ok (mkMonteCarloIntegrator base rr_depth max_depth).

End Construction.

(** ** The render job *)

(** What [Film] and [Sensor] hand to this file. *)
Record Film : Type := mkFilm {
  crop_size : Vector2;
  crop_offset : Vector2
}.

Record Sensor (F : Type) : Type := mkSensor {
  film : Film;
  (** [sensor->sampler()->sample_count()] *)
  sample_count : Z;
  needs_aperture_sample : bool;
  shutter_open : F;
  shutter_open_time : F
}.
Arguments mkSensor {F} _ _ _ _ _.
Arguments film {F} _.
Arguments sample_count {F} _.
Arguments needs_aperture_sample {F} _.
Arguments shutter_open {F} _.
Arguments shutter_open_time {F} _.

(** A tile as [Spiral::next_block()] returns it. *)
Record Block : Type := mkBlock {
  b_offset : Vector2;
  b_size : Vector2
}.

(** The [Spiral] (declared outside this file): how many tiles one pass has,
    and the tile its shared cursor hands to the [k]-th call of
    [next_block()], whoever makes the call. *)
Record Spiral : Type := mkSpiral {
  block_count : Z;
  next_block : nat -> Block
}.

(** One iteration range [tbb::parallel_for] hands to a worker, and how far
    the worker's loop over it has come. *)
Record Loop : Type := mkLoop {
  l_next : Z;
  l_end : Z;
  l_left : bool
}.

(** What happens while [parallel_for] runs, in the order it happens: the
    worker of range [w] evaluates the condition of its loop (the timer reads
    [now]) and, when it holds, runs the body once; or another thread calls
    [cancel()].  The body of an iteration counts as one event: what a stop
    does to a tile under way is the matter of [render_block], below. *)
Inductive Event (F : Type) : Type :=
| Work (w : nat) (now : F)
| Cancel.
Arguments Work {F} w now.
Arguments Cancel {F}.

(** What [render()] does to its collaborators. *)
Inductive Effect (F : Type) : Type :=
| FilmClear
| LogStarting (total_spp n_passes : Z)
| LogTimeout (timeout : F)
| SamplerSeed (w : nat) (seed : Z)
| RenderBlock (w : nat) (blk : Block) (samples_per_pass : Z)
| FilmPut (blk : Block)
| LogFinished.
Arguments FilmClear {F}.
Arguments LogStarting {F} _ _.
Arguments LogTimeout {F} _.
Arguments SamplerSeed {F} _ _.
Arguments RenderBlock {F} _ _ _.
Arguments FilmPut {F} _.
Arguments LogFinished {F}.

(** How a call of [render()] ends.  [Pending]: the events given do not bring
    every worker to the end of its loop, so [parallel_for] has not returned.
    [DivisionByZero]: the remainder by a zero [samples_per_pass], undefined
    in C++. *)
Inductive Outcome : Type :=
| Returned (b : bool)
| Thrown (e : Error)
| DivisionByZero
| Pending.

Section Render.
Context {F : Type} `{ScalarFloatOps F}.

(** [should_stop()] is defined outside this file; it is a [const] member,
    so it reads the object and the timer and writes nothing. *)
Variable should_stop : SamplingIntegrator F -> F -> bool.

(** The constructor of [Spiral]: from the film, the block size and the
    number of passes. *)
Variable Spiral_new : Film -> Z -> Z -> Spiral.

(** The effective number of samples per pass (lines 55-56). *)
Definition effective_samples_per_pass (this : SamplingIntegrator F) (total_spp : Z) : Z :=
  if m_samples_per_pass this =? SIZE_MAX
  then total_spp
  else Z.min (m_samples_per_pass this) total_spp.

(** [ceil(total_spp / (ScalarFloat) samples_per_pass)] (line 61) *)
Definition pass_count (total_spp samples_per_pass : Z) : Z :=
  to_size_t (fceil (fdiv (of_int total_spp) (of_int samples_per_pass))).

(** The seed of a tile (lines 104-107): [i] is the loop variable. *)
Definition tile_seed (film_size : Vector2) (n_passes : Z) (i : Z) (offset : Vector2) : Z :=
  let seed := u64 (u64 (vx offset) + u64 (u64 (vy offset) * u64 (vx film_size))) in
  if 1 <? n_passes
  then u64 (seed + u64 (i * u64 (hprod film_size)))
  else seed.

(** The body of the loop over the blocks (lines 95-118), run by the worker
    of range [w] with loop variable [i], as the [calls]-th caller of
    [next_block()]. *)
Definition render_unit (film_size : Vector2) (n_passes samples_per_pass : Z)
    (spiral : Spiral) (w : nat) (i : Z) (calls : nat) : Result (list (Effect F)) :=
  let blk := next_block spiral calls in
  if hprod (b_size blk) =? 0
  then Throw EmptyImageBlock
  else
    let seed := tile_seed film_size n_passes i (b_offset blk) in
    Ok [SamplerSeed w seed; RenderBlock w blk samples_per_pass; FilmPut blk].

(** The state of a running job. *)
Record Run : Type := mkRun {
  r_this : SamplingIntegrator F;
  r_loops : list Loop;
  (** calls of [next_block()] so far *)
  r_calls : nat;
  r_blocks_done : Z;
  r_effects : list (Effect F)
}.

Definition step (film_size : Vector2) (n_passes samples_per_pass : Z)
    (spiral : Spiral) (st : Run) (ev : Event F) : Result Run :=
  match ev with
  | Cancel =>
      Ok (mkRun (cancel (r_this st)) (r_loops st) (r_calls st)
                (r_blocks_done st) (r_effects st))
  | Work w now =>
      match r_loops st !! w with
      | None => Ok st
      | Some l =>
          if l_left l then Ok st
          else if negb (l_next l =? l_end l) && negb (should_stop (r_this st) now)
          then
            match render_unit film_size n_passes samples_per_pass spiral
                              w (l_next l) (r_calls st) with
            | Throw e => Throw e
            | Ok effects =>
                Ok (mkRun (r_this st)
                          (<[w := mkLoop (l_next l + 1) (l_end l) false]> (r_loops st))
                          (S (r_calls st))
                          (r_blocks_done st + 1)
                          (r_effects st ++ effects))
            end
          else
            Ok (mkRun (r_this st)
                      (<[w := mkLoop (l_next l) (l_end l) true]> (r_loops st))
                      (r_calls st) (r_blocks_done st) (r_effects st))
      end
  end.

(** The events in turn, up to the first exception. *)
Fixpoint run (film_size : Vector2) (n_passes samples_per_pass : Z)
    (spiral : Spiral) (st : Run) (events : list (Event F)) : Run * option Error :=
  match events with
  | [] => (st, None)
  | ev :: events' =>
      match step film_size n_passes samples_per_pass spiral st ev with
      | Ok st' => run film_size n_passes samples_per_pass spiral st' events'
      | Throw e => (st, Some e)
      end
  end.

(** What [render()] has fixed when it reaches [parallel_for]. *)
Record Job : Type := mkJob {
  j_film_size : Vector2;
  j_n_passes : Z;
  j_samples_per_pass : Z;
  j_spiral : Spiral;
  j_start : Run
}.

(** Lines 47-82: the checks and the set-up.  [ranges] are the ranges
    [parallel_for] cuts [0, total_blocks) into. *)
Definition start_job (this : SamplingIntegrator F) (sensor : Sensor F)
    (ranges : list (Z * Z)) : Outcome + Job :=
  let this := mkSamplingIntegrator (m_block_size this) (m_samples_per_pass this)
                                   (m_timeout this) false in
  let film_size := crop_size (film sensor) in
  let total_spp := sample_count sensor in
  let samples_per_pass := effective_samples_per_pass this total_spp in
  if samples_per_pass =? 0 then inl DivisionByZero
  else if negb (total_spp mod samples_per_pass =? 0)
  then inl (Thrown (SampleCountNotMultiple total_spp samples_per_pass))
  else
    let n_passes := pass_count total_spp samples_per_pass in
    let started :=
      [FilmClear; LogStarting total_spp n_passes]
      ++ (if fpositive (m_timeout this) then [LogTimeout (m_timeout this)] else []) in
    let spiral := Spiral_new (film sensor) (m_block_size this) n_passes in
    let loops := map (fun r => mkLoop (fst r) (snd r) false) ranges in
    inr (mkJob film_size n_passes samples_per_pass spiral
               (mkRun this loops O 0 started)).

(** Lines 83-121: the workers, event by event. *)
Definition run_job (job : Job) (st : Run) (events : list (Event F)) : Run * option Error :=
  run (j_film_size job) (j_n_passes job) (j_samples_per_pass job) (j_spiral job)
      st events.

(** Lines 147-151, or the exception a worker raised. *)
Definition finish (r : Run * option Error) : Outcome * list (Effect F) :=
  match r with
  | (st, Some e) => (Thrown e, r_effects st)
  | (st, None) =>
      if forallb l_left (r_loops st)
      then (Returned (negb (m_stop (r_this st))),
            r_effects st ++ (if negb (m_stop (r_this st)) then [LogFinished] else []))
      else (Pending, r_effects st)
  end.

(** [SamplingIntegrator::render(scene, sensor)] on the CPU
    ([!is_cuda_array_v<Float>]); [events] is what happens while
    [parallel_for] runs.  The result is how the call ends, with the effects
    up to there. *)
Definition render (this : SamplingIntegrator F) (sensor : Sensor F)
    (ranges : list (Z * Z)) (events : list (Event F)) : Outcome * list (Effect F) :=
  match start_job this sensor ranges with
  | inl out => (out, [])
  | inr job => finish (run_job job (j_start job) events)
  end.

(** [total_blocks] (line 80), a [ScalarFloat], as the upper end of the
    [blocked_range<size_t>] (line 84). *)
Definition total_blocks (spiral : Spiral) (n_passes : Z) : Z :=
  to_size_t (of_int (u64 (block_count spiral * n_passes))).

(** The ranges cover [lo, hi) from left to right. *)
Fixpoint splits (lo hi : Z) (ranges : list (Z * Z)) : Prop :=
  match ranges with
  | [] => lo = hi
  | r :: ranges' => fst r = lo /\ lo < snd r /\ splits (snd r) hi ranges'
  end.

(** What one event can do to a run. *)
Inductive step_spec (film_size : Vector2) (n_passes samples_per_pass : Z)
    (spiral : Spiral) (st : Run) : Event F -> Result Run -> Prop :=
| step_cancel :
    step_spec film_size n_passes samples_per_pass spiral st Cancel
      (Ok (mkRun (cancel (r_this st)) (r_loops st) (r_calls st)
                 (r_blocks_done st) (r_effects st)))
| step_idle w now :
    (r_loops st !! w = None \/ exists l, r_loops st !! w = Some l /\ l_left l = true) ->
    step_spec film_size n_passes samples_per_pass spiral st (Work w now) (Ok st)
| step_leave w now l :
    r_loops st !! w = Some l -> l_left l = false ->
    l_next l = l_end l \/ should_stop (r_this st) now = true ->
    step_spec film_size n_passes samples_per_pass spiral st (Work w now)
      (Ok (mkRun (r_this st)
                 (<[w := mkLoop (l_next l) (l_end l) true]> (r_loops st))
                 (r_calls st) (r_blocks_done st) (r_effects st)))
| step_empty w now l :
    r_loops st !! w = Some l -> l_left l = false ->
    l_next l <> l_end l -> should_stop (r_this st) now = false ->
    hprod (b_size (next_block spiral (r_calls st))) = 0 ->
    step_spec film_size n_passes samples_per_pass spiral st (Work w now) (Throw EmptyImageBlock)
| step_tile w now l :
    r_loops st !! w = Some l -> l_left l = false ->
    l_next l <> l_end l -> should_stop (r_this st) now = false ->
    hprod (b_size (next_block spiral (r_calls st))) <> 0 ->
    step_spec film_size n_passes samples_per_pass spiral st (Work w now)
      (Ok (mkRun (r_this st)
                 (<[w := mkLoop (l_next l + 1) (l_end l) false]> (r_loops st))
                 (S (r_calls st))
                 (r_blocks_done st + 1)
                 (r_effects st
                  ++ [SamplerSeed w (tile_seed film_size n_passes (l_next l)
                                               (b_offset (next_block spiral (r_calls st))));
                      RenderBlock w (next_block spiral (r_calls st)) samples_per_pass;
                      FilmPut (next_block spiral (r_calls st))]))).

(** Effects of rendered tiles only, each tile with the given sample count and
    a non-empty extent. *)
Definition tile_effects (samples_per_pass : Z) (added : list (Effect F)) : Prop :=
  Forall (fun e => match e with
                   | SamplerSeed _ _ | FilmPut _ => True
                   | RenderBlock _ blk n =>
                       n = samples_per_pass /\ hprod (b_size blk) <> 0
                   | _ => False
                   end) added.

(** The iterations the ranges hold. *)
Definition units (ranges : list (Z * Z)) : Z :=
  foldr (fun r acc => (snd r - fst r) + acc) 0 ranges.

(** The tiles handed to [Film::put]. *)
Definition tiles_put (effects : list (Effect F)) : Z :=
  foldr (fun e acc => match e with FilmPut _ => 1 + acc | _ => acc end) 0 effects.

(** The iterations the loops still have to make. *)
Definition remaining (loops : list Loop) : Z :=
  foldr (fun l acc => (l_end l - l_next l) + acc) 0 loops.

Definition is_cancel (ev : Event F) : bool :=
  match ev with Cancel => true | Work _ _ => false end.

End Render.

(** ** The loop over the samples of a tile *)

(** One call of [render_sample] by the scalar loop: the pixel handed over,
    the value of the loop variable [j] at the call, and the scale factor. *)
Record SampleCall (F : Type) : Type := mkSampleCall {
  sc_pixel : Vector2;
  sc_sample : Z;
  sc_scale : F
}.
Arguments mkSampleCall {F} _ _ _.
Arguments sc_pixel {F} _.
Arguments sc_sample {F} _.
Arguments sc_scale {F} _.

(** One lane of a packet: its index in the flat range, the pixel, the mask. *)
Record Lane : Type := mkLane {
  ln_index : Z;
  ln_pixel : Vector2;
  ln_active : bool
}.

(** One call of [render_sample] by the packet loop. *)
Record PacketCall (F : Type) : Type := mkPacketCall {
  pk_lanes : list Lane;
  pk_scale : F
}.
Arguments mkPacketCall {F} _ _.
Arguments pk_lanes {F} _.
Arguments pk_scale {F} _.

(** The kinds of [Float]: a scalar ([!is_array_v<Float>]), a packet on the
    CPU, an array on the GPU ([is_cuda_array_v<Float>]). *)
Inductive Variant : Type :=
| ScalarVariant
| PacketVariant
| CudaVariant.

Section RenderBlock.
Context {F : Type} `{ScalarFloatOps F}.

(** [enoki::morton_decode] and the width of a packet are defined outside
    this file. *)
Variable morton_decode : Z -> Vector2.
Variable PacketSize : nat.

(** [pixel_count] (line 161) *)
Definition pixel_count (this : SamplingIntegrator F) : Z :=
  u32 (m_block_size this * m_block_size this).

(** [sample_count] (lines 162-164) *)
Definition block_sample_count (sampler_sample_count sample_count_ : Z) : Z :=
  u32 (if sample_count_ =? SIZE_MAX then sampler_sample_count else sample_count_).

(** [diff_scale_factor] (line 166) *)
Definition diff_scale_factor (sampler_sample_count : Z) : F :=
  rsqrt (of_int sampler_sample_count).

(** [any(pos >= block->size())]: the components of [pos] are unsigned. *)
Definition outside (pos : Vector2) (size : Vector2) : bool :=
  (u32 (vx size) <=? vx pos) || (u32 (vy size) <=? vy pos).

(** [pos += block->offset()] *)
Definition shifted (pos : Vector2) (offset : Vector2) : Vector2 :=
  mkVector2 (u32 (vx pos + u32 (vx offset))) (u32 (vy pos + u32 (vy offset))).

(** The scalar form (lines 169-179).  [stop k] is what the [k]-th call of
    [should_stop()] during this [render_block] returns; the loops return
    the number of calls so far and the calls of [render_sample]. *)
Section Scalar.
Variable stop : nat -> bool.

Fixpoint sample_loop (n : nat) (j : Z) (checks : nat) (pos : Vector2) (scale : F)
  : nat * list (SampleCall F) :=
  match n with
  | O => (checks, [])
  | S n' =>
      if stop checks then (S checks, [])
      else
        let rest := sample_loop n' (j + 1) (S checks) pos scale in
        (fst rest, mkSampleCall pos j scale :: snd rest)
  end.

Fixpoint pixel_loop (blk : Block) (sample_count : Z) (scale : F)
    (n : nat) (i : Z) (checks : nat) : nat * list (SampleCall F) :=
  match n with
  | O => (checks, [])
  | S n' =>
      if stop checks then (S checks, [])
      else
        let pos := morton_decode i in
        if outside pos (b_size blk)
        then pixel_loop blk sample_count scale n' (i + 1) (S checks)
        else
          let samples :=
            sample_loop (Z.to_nat sample_count) 0 (S checks)
                        (shifted pos (b_offset blk)) scale in
          let rest := pixel_loop blk sample_count scale n' (i + 1) (fst samples) in
          (fst rest, snd samples ++ snd rest)
  end.

Definition render_block_scalar (this : SamplingIntegrator F) (sampler_sample_count : Z)
    (blk : Block) (sample_count_ : Z) : list (SampleCall F) :=
  let sample_count := block_sample_count sampler_sample_count sample_count_ in
  snd (pixel_loop blk sample_count (diff_scale_factor sampler_sample_count)
                  (Z.to_nat (pixel_count this)) 0 O).
End Scalar.

(** [range<UInt32>(n)]: the indices [0 .. n-1] in packets of [PacketSize]
    lanes, a lane being active when its index is below [n]. *)
Definition range_packets (n : Z) : list (list (Z * bool)) :=
  let P := Z.of_nat PacketSize in
  map (fun p => map (fun l => (p * P + l, p * P + l <? n)) (zseq PacketSize 0))
      (zseq (Z.to_nat ((n + P - 1) / P)) 0).

(** The packet form (lines 181-186). *)
Definition render_block_packet (this : SamplingIntegrator F) (sampler_sample_count : Z)
    (blk : Block) (sample_count_ : Z) : list (PacketCall F) :=
  let sample_count := block_sample_count sampler_sample_count sample_count_ in
  map (fun packet =>
         mkPacketCall
           (map (fun lane : Z * bool =>
                   let pos := morton_decode (fst lane / sample_count) in
                   let active := snd lane && negb (outside pos (b_size blk)) in
                   mkLane (fst lane) (shifted pos (b_offset blk)) active)
                packet)
           (diff_scale_factor sampler_sample_count))
      (range_packets (u32 (pixel_count this * sample_count))).

(** The calls the scalar form makes for the pixel of index [i], as pairs of
    pixel and sample index. *)
Definition pixel_pairs (blk : Block) (sample_count : Z) (i : Z) : list (Vector2 * Z) :=
  if outside (morton_decode i) (b_size blk) then []
  else map (fun j => (shifted (morton_decode i) (b_offset blk), j))
           (zseq (Z.to_nat sample_count) 0).



(** [SamplingIntegrator::render_block]: which form runs is fixed by the
    type [Float] the class is instantiated with (lines 168-189). *)
Definition render_block (variant : Variant) (stop : nat -> bool)
    (this : SamplingIntegrator F) (sampler_sample_count : Z) (blk : Block)
    (sample_count_ : Z) : Result (list (SampleCall F) + list (PacketCall F)) :=
  match variant with
  | ScalarVariant =>
      Ok (inl (render_block_scalar stop this sampler_sample_count blk sample_count_))
  | PacketVariant =>
      Ok (inr (render_block_packet this sampler_sample_count blk sample_count_))
  | CudaVariant => Throw NotImplementedForCuda
  end.


End RenderBlock.

(** Modelled from the spec: [enoki::morton_decode] is defined outside this
    file; the spec has the pixels of a tile visited in bit-interleaved order.
    The even bits of the index give [x], the odd bits give [y]. *)
Fixpoint compact_bits (n : nat) (i : Z) : Z :=
  match n with
  | O => 0
  | S n' => Z.b2z (Z.testbit i 0) + 2 * compact_bits n' (Z.shiftr i 2)
  end.

Definition morton_decode_bits (i : Z) : Vector2 :=
  mkVector2 (compact_bits 16 i) (compact_bits 16 (Z.shiftr i 1)).

(** ** One sample *)

(** The sample stream ([Sampler], an abstract class). *)
Class SamplerOps (V Mask Smp : Type) : Type := {
  next_1d : Smp -> Mask -> V * Smp;
  next_2d : Smp -> Mask -> (V * V) * Smp
}.

(** A sampler that counts the draws made from it. *)
Record Counted (Smp : Type) : Type := mkCounted {
  inner : Smp;
  draws_1d : nat;
  draws_2d : nat
}.
Arguments mkCounted {Smp} _ _ _.
Arguments inner {Smp} _.
Arguments draws_1d {Smp} _.
Arguments draws_2d {Smp} _.

#[export] Instance counted_sampler {V Mask Smp : Type} `{SamplerOps V Mask Smp}
  : SamplerOps V Mask (Counted Smp) := {
  next_1d := fun c active =>
    let r := next_1d (inner c) active in
    (fst r, mkCounted (snd r) (S (draws_1d c)) (draws_2d c));
  next_2d := fun c active =>
    let r := next_2d (inner c) active in
    (fst r, mkCounted (snd r) (draws_1d c) (S (draws_2d c)))
}.

(** What [render_sample] has drawn when it asks the sensor for a ray
    (lines 200-210). *)
Record PrimarySamples (V : Type) : Type := mkPrimarySamples {
  position_sample : V * V;
  aperture_sample : V * V;
  time : V;
  wavelength_sample : V
}.
Arguments mkPrimarySamples {V} _ _ _ _.
Arguments position_sample {V} _.
Arguments aperture_sample {V} _.
Arguments time {V} _.
Arguments wavelength_sample {V} _.

Section RenderSample.
Context {F : Type} `{ScalarFloatOps F}.

(** [Float] is [ScalarFloat] or a packet of them, [Mask] its mask type;
    the arithmetic of [Float] and the conversion from [ScalarFloat]. *)
Variables V Mask : Type.
Variable broadcast : F -> V.
Variables vadd vsub vmul vdiv : V -> V -> V.

Context {Smp : Type} `{SamplerOps V Mask Smp}.

(** The collaborators: the ray a sensor generates and its weight, the
    scaling of its differentials, the integrator's [sample] (virtual, not
    implemented here), the product of two spectra, [ImageBlock::put]. *)
Variables Scene Ray Spectrum Wavelengths ImageBlock : Type.
Variable sample_ray_differential :
  Sensor F -> V -> V -> V * V -> V * V -> Ray * Spectrum.
Variable scale_differential : Ray -> F -> Ray.
Variable wavelengths : Ray -> Wavelengths.
Variable sample : Scene -> Smp -> Ray -> Mask -> (Spectrum * Mask) * Smp.
Variable spectrum_mul : Spectrum -> Spectrum -> Spectrum.
Variable put : ImageBlock -> V * V -> Wavelengths -> Spectrum -> V -> ImageBlock.

(** Lines 200-210. *)
Definition primary_samples (sensor : Sensor F) (sampler : Smp) (pos : V * V)
    (active : Mask) : PrimarySamples V * Smp :=
  let d0 := next_2d sampler active in
  let position_sample := (vadd (fst pos) (fst (fst d0)), vadd (snd pos) (snd (fst d0))) in
  let sampler := snd d0 in
  let d1 :=
    if needs_aperture_sample sensor
    then next_2d sampler active
    else ((broadcast fhalf, broadcast fhalf), sampler) in
  let aperture_sample := fst d1 in
  let sampler := snd d1 in
  let time := broadcast (shutter_open sensor) in
  let d2 :=
    if fpositive (shutter_open_time sensor)
    then
      let d := next_1d sampler active in
      (vadd time (vmul (fst d) (broadcast (shutter_open_time sensor))), snd d)
    else (time, sampler) in
  let time := fst d2 in
  let sampler := snd d2 in
  let d3 := next_1d sampler active in
  (mkPrimarySamples position_sample aperture_sample time (fst d3), snd d3).

(** [SamplingIntegrator::render_sample] *)
Definition render_sample (scene : Scene) (sensor : Sensor F) (sampler : Smp)
    (block : ImageBlock) (pos : V * V) (diff_scale_factor : F) (active : Mask)
    : Smp * ImageBlock :=
  let drawn := primary_samples sensor sampler pos active in
  let ps := fst drawn in
  let sampler := snd drawn in
  let crop_off := crop_offset (film sensor) in
  let crop_sz := crop_size (film sensor) in
  let adjusted_position :=
    (vdiv (vsub (fst (position_sample ps)) (broadcast (of_int (vx crop_off))))
          (broadcast (of_int (vx crop_sz))),
     vdiv (vsub (snd (position_sample ps)) (broadcast (of_int (vy crop_off))))
          (broadcast (of_int (vy crop_sz)))) in
  let rw := sample_ray_differential sensor (time ps) (wavelength_sample ps)
                                    adjusted_position (aperture_sample ps) in
  let ray := scale_differential (fst rw) diff_scale_factor in
  let ray_weight := snd rw in
  let alpha := broadcast (of_int 1) in
  let evaluated := sample scene sampler ray active in
  let result := fst (fst evaluated) in
  let sampler := snd evaluated in
  (sampler,
   put block (position_sample ps) (wavelengths ray)
       (spectrum_mul ray_weight result) alpha).

End RenderSample.

(** ** The samples of a tile, handed to [render_sample] *)

Section RenderBlockSamples.
Context {F : Type} `{ScalarFloatOps F}.
Variables V Mask : Type.
Variable broadcast : F -> V.
Variables vadd vsub vmul vdiv : V -> V -> V.
Context {Smp : Type} `{SamplerOps V Mask Smp}.
Variables Scene Ray Spectrum Wavelengths ImageBlock : Type.
Variable sample_ray_differential :
  Sensor F -> V -> V -> V * V -> V * V -> Ray * Spectrum.
Variable scale_differential : Ray -> F -> Ray.
Variable wavelengths : Ray -> Wavelengths.
Variable sample : Scene -> Smp -> Ray -> Mask -> (Spectrum * Mask) * Smp.
Variable spectrum_mul : Spectrum -> Spectrum -> Spectrum.
Variable put : ImageBlock -> V * V -> Wavelengths -> Spectrum -> V -> ImageBlock.

(** [Vector2f] from [Point2u], lane by lane, and the mask of the lanes. *)
Variable of_lanes : list Z -> V.
Variable of_mask : list bool -> Mask.

(** One call of [render_sample] by [render_block] (lines 176-177 and 185),
    for the lanes given: all of them are handed over, with their mask. *)
Definition render_lanes (scene : Scene) (sensor : Sensor F) (lanes : list Lane)
    (scale : F) (state : Smp * ImageBlock) : Smp * ImageBlock :=
  render_sample V Mask broadcast vadd vsub vmul vdiv
    Scene Ray Spectrum Wavelengths ImageBlock
    sample_ray_differential scale_differential wavelengths sample spectrum_mul put
    scene sensor (fst state) (snd state)
    (of_lanes (map (fun l => vx (ln_pixel l)) lanes),
     of_lanes (map (fun l => vy (ln_pixel l)) lanes))
    scale
    (of_mask (map ln_active lanes)).

(** The calls of the scalar form in turn: one lane each, the mask left at
    its default, [true]. *)
Definition render_scalar_calls (scene : Scene) (sensor : Sensor F)
    (calls : list (SampleCall F)) (state : Smp * ImageBlock) : Smp * ImageBlock :=
  fold_left (fun state c =>
               render_lanes scene sensor [mkLane (sc_sample c) (sc_pixel c) true]
                            (sc_scale c) state)
            calls state.

(** The calls of the packet form in turn. *)
Definition render_packet_calls (scene : Scene) (sensor : Sensor F)
    (calls : list (PacketCall F)) (state : Smp * ImageBlock) : Smp * ImageBlock :=
  fold_left (fun state c => render_lanes scene sensor (pk_lanes c) (pk_scale c) state)
            calls state.

End RenderBlockSamples.

(** ** Collaborators for the examples *)

(** Modelled from the spec: [should_stop()] is declared outside this file;
    the spec has cancellation as a flag that is set by [cancel()] and checked
    at tile and sample boundaries. *)
Definition should_stop_flag {F : Type} (this : SamplingIntegrator F) (now : F) : bool :=
  m_stop this.

(** A [should_stop()] that also reports a positive timeout the timer has
    passed. *)
Definition should_stop_timeout {F : Type} `{ScalarFloatOps F}
    (this : SamplingIntegrator F) (now : F) : bool :=
  m_stop this || (fpositive (m_timeout this) && fgt now (m_timeout this)).

(** A scheduler that hands out the tiles of the film row by row, pass after
    pass, the tiles at the right and lower border clipped to the film.  (The
    order in which the real [Spiral] visits the tiles plays no part below.) *)
Definition raster_spiral (film : Film) (block_size n_passes : Z) : Spiral :=
  let w := vx (crop_size film) in
  let h := vy (crop_size film) in
  let nx := (w + block_size - 1) / block_size in
  let ny := (h + block_size - 1) / block_size in
  mkSpiral (nx * ny)
    (fun k =>
       let k' := Z.of_nat k mod (nx * ny) in
       let ox := (k' mod nx) * block_size in
       let oy := (k' / nx) * block_size in
       mkBlock (mkVector2 ox oy)
               (mkVector2 (Z.min block_size (w - ox)) (Z.min block_size (h - oy)))).

(** A scheduler gone wrong: its second tile has no height. *)
Definition faulty_spiral (film : Film) (block_size n_passes : Z) : Spiral :=
  mkSpiral 2
    (fun k =>
       match k with
       | 1%nat => mkBlock (mkVector2 1 0) (mkVector2 1 0)
       | _ => mkBlock (mkVector2 0 0) (mkVector2 1 1)
       end).

(** The seed as the spec words it: [offset.x + offset.y * frame_width], plus
    [pass_index * frame_pixel_count] for a job of several passes. *)
Definition spec_seed (frame_width frame_pixel_count : Z) (multi_pass : bool)
    (pass_index : Z) (offset : Vector2) : Z :=
  vx offset + vy offset * frame_width
  + (if multi_pass then pass_index * frame_pixel_count else 0).

(** The seeds given to the samplers, in the order they are given. *)
Definition seeds {F : Type} (effects : list (Effect F)) : list Z :=
  foldr (fun e acc => match e with SamplerSeed _ seed => seed :: acc | _ => acc end)
        [] effects.

(** The tiles rendered, in order. *)
Definition rendered {F : Type} (effects : list (Effect F)) : list Block :=
  foldr (fun e acc => match e with RenderBlock _ blk _ => blk :: acc | _ => acc end)
        [] effects.

(** A film two pixels wide and one pixel high, a sensor on it with a given
    total sample count, and an integrator with tiles of one pixel. *)
Definition film_2x1 : Film := mkFilm (mkVector2 2 1) (mkVector2 0 0).

Definition sensor_2x1 (total_spp : Z) : Sensor float :=
  mkSensor film_2x1 total_spp false 0%float 0%float.

Definition integrator_1px (samples_per_pass : Z) (timeout : float)
  : SamplingIntegrator float :=
  mkSamplingIntegrator 1 samples_per_pass timeout false.

(** A sample stream for the examples: the [k]-th draw of a stream is the
    number [k], for both components of a two-dimensional draw. *)
#[export] Instance counting_stream : SamplerOps float bool Z := {
  next_1d := fun k _ => (b64_of_int k, k + 1);
  next_2d := fun k _ => ((b64_of_int k, b64_of_int k), k + 1)
}.

(** Packets for the examples: a packet is the list of its lanes.  The
    stream draws zero for every lane, whatever the mask; scene, ray and
    spectra are of no matter; the image block is the list of the positions
    handed to [put], call after call. *)
#[export] Instance zero_stream : SamplerOps (list float) (list bool) unit := {
  next_1d := fun s active => (map (fun _ => 0%float) active, s);
  next_2d := fun s active =>
    ((map (fun _ => 0%float) active, map (fun _ => 0%float) active), s)
}.

Definition put_position (block : list (list (float * float)))
    (pos : list float * list float) (w : unit) (value : unit) (alpha : list float)
  : list (list (float * float)) :=
  block ++ [zip (fst pos) (snd pos)].

(** The positions the scalar form hands to [put]. *)
Definition positions_put_scalar (calls : list (SampleCall float))
  : list (list (float * float)) :=
  snd (render_scalar_calls (list float) (list bool) (fun x => [x])
         (zip_with PrimFloat.add) (zip_with PrimFloat.sub)
         (zip_with PrimFloat.mul) (zip_with PrimFloat.div)
         unit unit unit unit (list (list (float * float)))
         (fun _ _ _ _ _ => (tt, tt)) (fun ray _ => ray) (fun _ => tt)
         (fun _ sampler _ active => ((tt, active), sampler)) (fun _ _ => tt)
         put_position (map b64_of_int) (fun m => m)
         tt (sensor_2x1 1) calls (tt, [])).

(** The positions the packet form hands to [put], for packets of [width]
    lanes. *)
Definition positions_put_packet (width : nat) (calls : list (PacketCall float))
  : list (list (float * float)) :=
  snd (render_packet_calls (list float) (list bool) (fun x => replicate width x)
         (zip_with PrimFloat.add) (zip_with PrimFloat.sub)
         (zip_with PrimFloat.mul) (zip_with PrimFloat.div)
         unit unit unit unit (list (list (float * float)))
         (fun _ _ _ _ _ => (tt, tt)) (fun ray _ => ray) (fun _ => tt)
         (fun _ sampler _ active => ((tt, active), sampler)) (fun _ _ => tt)
         put_position (map b64_of_int) (fun m => m)
         tt (sensor_2x1 1) calls (tt, [])).

(** ** More of the file *)

(** The warning of the constructor (lines 27-31): the two numbers its
    message shows, in the order it shows them.  The message is written
    after [m_block_size] has been set. *)
Definition SamplingIntegrator_new_warnings {F : Type} (MTS_BLOCK_SIZE : Z)
    (round_to_power_of_two : Z -> Z) (props : Properties F) : list (Z * Z) :=
  let m_block_size0 := u32 (size_ props "block_size" MTS_BLOCK_SIZE) in
  let block_size := u32 (round_to_power_of_two m_block_size0) in
  if negb (block_size =? m_block_size0)
  then
    let m_block_size1 := block_size in
    [(block_size, m_block_size1)]
  else [].

(** The three effects of a tile: the worker, the seed and the tile. *)
Definition tile_triple {F : Type} (samples_per_pass : Z) (t : nat * Z * Block)
  : list (Effect F) :=
  [SamplerSeed (fst (fst t)) (snd (fst t));
   RenderBlock (fst (fst t)) (snd t) samples_per_pass;
   FilmPut (snd t)].

(** The workers one after the other: the worker of each range checks the
    condition of its loop once for every iteration and once more at the end. *)
Fixpoint sequential_schedule {F : Type} (now : F) (w : nat) (ranges : list (Z * Z))
  : list (Event F) :=
  match ranges with
  | [] => []
  | r :: ranges' =>
      replicate (S (Z.to_nat (snd r - fst r))) (Work w now)
      ++ sequential_schedule now (S w) ranges'
  end.

(** One pass of the branch for the GPU (lines 124-143): the number of lanes,
    the seeds given to the sampler, the pixels of the lanes, the scale
    factor. *)
Record WidePass (F : Type) : Type := mkWidePass {
  wp_lanes : Z;
  wp_seeds : list Z;
  wp_pixels : list Vector2;
  wp_scale : F
}.
Arguments mkWidePass {F} _ _ _ _.
Arguments wp_lanes {F} _.
Arguments wp_seeds {F} _.
Arguments wp_pixels {F} _.
Arguments wp_scale {F} _.

Section RenderWide.
Context {F : Type} `{ScalarFloatOps F}.

(** The body of the loop over the passes (lines 124-143). *)
Definition render_wide_pass (film_size : Vector2) (samples_per_pass : Z)
    (sampler_sample_count : Z) : WidePass F :=
  let total_sample_count := u32 (u64 (u64 (hprod film_size) * samples_per_pass)) in
  let lanes := zseq (Z.to_nat total_sample_count) 0 in
  mkWidePass
    total_sample_count
    lanes
    (map (fun k =>
            let idx := k / u32 samples_per_pass in
            mkVector2 (idx mod u32 (vx film_size)) (idx / u32 (vx film_size)))
         lanes)
    (rsqrt (of_int sampler_sample_count)).

(** [SamplingIntegrator::render(scene, sensor)] on the GPU
    ([is_cuda_array_v<Float>], lines 47-62 and 122-151): the passes rendered
    and put on the film.  Nothing in this branch looks at the flag before
    the end; [cancelled] tells whether [cancel()] was called meanwhile. *)
Definition render_wide (this : SamplingIntegrator F) (sensor : Sensor F)
    (cancelled : bool) : Outcome * list (WidePass F) :=
  let film_size := crop_size (film sensor) in
  let total_spp := sample_count sensor in
  let samples_per_pass := effective_samples_per_pass this total_spp in
  if samples_per_pass =? 0 then (DivisionByZero, [])
  else if negb (total_spp mod samples_per_pass =? 0)
  then (Thrown (SampleCountNotMultiple total_spp samples_per_pass), [])
  else
    let n_passes := pass_count total_spp samples_per_pass in
    (Returned (negb cancelled),
     replicate (Z.to_nat n_passes)
               (render_wide_pass film_size samples_per_pass total_spp)).

End RenderWide.


(** ** Facts about the floating-point instance *)

Lemma elem_of_zseq (n : nat) : forall a z, In z (zseq n a) <-> a <= z < a + Z.of_nat n.
Proof.
  induction n as [|n IH]; intros a z; simpl.
  - lia.
  - rewrite IH. lia.
Qed.

Lemma b64_check_quotients_sound (B k d : Z) :
  b64_check_quotients B = true ->
  0 < k -> 0 < d -> k * d < B ->
  to_size_t (fceil (fdiv (of_int (k * d)) (of_int d))) = k.
Proof.
  unfold b64_check_quotients. intros Hc Hk Hd Hkd.
  rewrite forallb_forall in Hc.
  assert (HdB : d < B) by nia.
  specialize (Hc d). rewrite elem_of_zseq in Hc.
  assert (Hin : 1 <= d < 1 + Z.of_nat (Z.to_nat B)) by lia.
  specialize (Hc Hin). rewrite forallb_forall in Hc.
  specialize (Hc k). rewrite elem_of_zseq in Hc.
  assert (k <= B / d) by (apply Z.div_le_lower_bound; lia).
  apply Z.eqb_eq. apply Hc. lia.
Qed.

Lemma b64_check_roundtrip_sound (B n : Z) :
  b64_check_roundtrip B = true -> 0 <= n < B -> to_size_t (of_int n) = n.
Proof.
  unfold b64_check_roundtrip. intros Hc Hn.
  rewrite forallb_forall in Hc.
  apply Z.eqb_eq. apply Hc. rewrite elem_of_zseq. lia.
Qed.

(** Binary64 is exact on the integers below [b64_exact_bound]. *)
Lemma binary64_exact : ScalarFloatExact float b64_exact_bound.
Proof.
  split.
  - intros n Hn. apply (b64_check_roundtrip_sound b64_exact_bound); [|exact Hn].
    vm_compute. reflexivity.
  - intros k d Hk Hd Hkd.
    apply (b64_check_quotients_sound b64_exact_bound); [|assumption..].
    vm_compute. reflexivity.
Qed.

(** ** Facts about machine integers *)

Lemma u32_small (z : Z) : 0 <= z < 2 ^ 32 -> u32 z = z.
Proof. intros Hz. unfold u32. apply Z.mod_small. exact Hz. Qed.

Lemma u64_small (z : Z) : 0 <= z < 2 ^ 64 -> u64 z = z.
Proof. intros Hz. unfold u64. apply Z.mod_small. exact Hz. Qed.

Lemma u32_range (z : Z) : 0 <= u32 z < 2 ^ 32.
Proof. unfold u32. apply Z.mod_pos_bound. lia. Qed.

(** If the product of the extents is not zero in [int], neither extent is
    zero. *)
Lemma hprod_nonzero (v : Vector2) : hprod v <> 0 -> vx v <> 0 /\ vy v <> 0.
Proof.
  unfold hprod. intros Hp.
  split; intros Hz; apply Hp; rewrite Hz;
    [rewrite Z.mul_0_l | rewrite Z.mul_0_r]; reflexivity.
Qed.

Lemma hprod_zero_extent (v : Vector2) : vx v = 0 \/ vy v = 0 -> hprod v = 0.
Proof.
  unfold hprod. intros [Hz | Hz]; rewrite Hz;
    [rewrite Z.mul_0_l | rewrite Z.mul_0_r]; reflexivity.
Qed.

(** ** The transport policy *)

(** C5. Construction of a [MonteCarloIntegrator] throws exactly when
    [rr_depth <= 0] or [max_depth] is neither [-1] nor non-negative; every
    other configuration is accepted, and the two depths are stored as the
    property list gives them. *)
Theorem MonteCarloIntegrator_new_validates {F : Type} `{ScalarFloatOps F}
    (MTS_BLOCK_SIZE : Z) (round_to_power_of_two : Z -> Z)
    (props : Properties F) (stop0 : bool) :
  let rr_depth := int_ props "rr_depth" 5 in
  let max_depth := int_ props "max_depth" (-1) in
  let built := MonteCarloIntegrator_new MTS_BLOCK_SIZE round_to_power_of_two props stop0 in
  ((exists e, built = Throw e) <->
     (rr_depth <= 0 \/ ~ (max_depth = -1 \/ 0 <= max_depth)))
  /\ ((1 <= rr_depth /\ (max_depth = -1 \/ 0 <= max_depth)) <->
      built = Ok (mkMonteCarloIntegrator
                    (SamplingIntegrator_new MTS_BLOCK_SIZE round_to_power_of_two props stop0)
                    rr_depth max_depth)).
Proof.
  intros rr_depth max_depth built. subst built.
  unfold MonteCarloIntegrator_new. fold rr_depth. fold max_depth.
  destruct (Z.leb_spec rr_depth 0) as [Hrr | Hrr].
  - split; split.
    + intros _. left. exact Hrr.
    + intros _. eexists. reflexivity.
    + intros [Hge _]. lia.
    + intros Heq. discriminate Heq.
  - destruct (Z.ltb_spec max_depth 0) as [Hmd | Hmd]; simpl.
    + destruct (Z.eqb_spec max_depth (-1)) as [Hm1 | Hm1]; simpl.
      * split; split.
        -- intros [e He]. discriminate He.
        -- intros [Hle | Hno]; [lia | exfalso; apply Hno; left; exact Hm1].
        -- intros _. reflexivity.
        -- intros _. split; [lia | left; exact Hm1].
      * split; split.
        -- intros _. right. intros [Hm | Hm]; [contradiction | lia].
        -- intros _. eexists. reflexivity.
        -- intros [_ [Hm | Hm]]; [contradiction | lia].
        -- intros Heq. discriminate Heq.
    + split; split.
      * intros [e He]. discriminate He.
      * intros [Hle | Hno]; [lia | exfalso; apply Hno; right; exact Hmd].
      * intros _. reflexivity.
      * intros _. split; [lia | right; exact Hmd].
Qed.

(** The cases the spec names: [rr_depth = 0] and [max_depth = -2] are
    rejected, the defaults and [max_depth = 0] are accepted. *)
Example MonteCarloIntegrator_new_cases :
  let new := MonteCarloIntegrator_new (F := float) 32 (fun z => z) in
  new (mkProperties float {[ "rr_depth" := 0 ]} ∅) false = Throw RrDepthNotPositive
  /\ new (mkProperties float {[ "max_depth" := -2 ]} ∅) false = Throw MaxDepthInvalid
  /\ (exists mc, new (mkProperties float ∅ ∅) false = Ok mc
                 /\ m_rr_depth mc = 5 /\ m_max_depth mc = -1)
  /\ (exists mc, new (mkProperties float {[ "max_depth" := 0 ]} ∅) false = Ok mc
                 /\ m_max_depth mc = 0).
Proof.
  repeat split; try reflexivity; eexists; (split; [reflexivity|]); repeat split.
Qed.

(** ** The render job: how a run proceeds *)

Section RunFacts.
Context {F : Type} `{ScalarFloatOps F}.
Variable should_stop : SamplingIntegrator F -> F -> bool.
Variables (film_size : Vector2) (n_passes samples_per_pass : Z) (spiral : Spiral).


Lemma step_is_spec (st : Run) (ev : Event F) : step_spec should_stop film_size n_passes samples_per_pass spiral st ev (step should_stop film_size n_passes samples_per_pass spiral st ev).
Proof.
  destruct ev as [w now|]; simpl; [|apply step_cancel].
  destruct (r_loops st !! w) as [l|] eqn:Hl; [|apply step_idle; left; exact Hl].
  destruct (l_left l) eqn:Hleft; [apply step_idle; right; exists l; split; assumption|].
  destruct (Z.eqb_spec (l_next l) (l_end l)) as [Hend | Hend]; simpl.
  - eapply step_leave; eauto.
  - destruct (should_stop (r_this st) now) eqn:Hstop; simpl.
    + eapply step_leave; eauto.
    + unfold render_unit.
      destruct (Z.eqb_spec (hprod (b_size (next_block spiral (r_calls st)))) 0)
        as [Hz | Hz].
      * eapply step_empty; eauto.
      * eapply step_tile; eauto.
Qed.

Lemma run_app (pre post : list (Event F)) : forall st,
  run should_stop film_size n_passes samples_per_pass spiral st (pre ++ post) =
  match run should_stop film_size n_passes samples_per_pass spiral st pre with
  | (st', None) => run should_stop film_size n_passes samples_per_pass spiral st' post
  | stopped => stopped
  end.
Proof.
  induction pre as [|ev pre IH]; intros st; simpl; [reflexivity|].
  destruct (step should_stop film_size n_passes samples_per_pass spiral st ev) as [st'|e]; [apply IH | reflexivity].
Qed.

(** The only exception a worker raises is the one for an empty tile. *)
Lemma run_throws_empty_block : forall events st st' e,
  run should_stop film_size n_passes samples_per_pass spiral st events = (st', Some e) -> e = EmptyImageBlock.
Proof.
  induction events as [|ev events IH]; intros st st' e Hrun; simpl in Hrun.
  - discriminate Hrun.
  - pose proof (step_is_spec st ev) as Hspec.
    destruct (step should_stop film_size n_passes samples_per_pass spiral st ev) as [st1|e1] eqn:Hs.
    + eapply IH; exact Hrun.
    + inversion Hrun; subst. inversion Hspec; reflexivity.
Qed.

(** The effects only grow, by the three effects of a tile at a time. *)
Lemma run_effects : forall events st st' e,
  run should_stop film_size n_passes samples_per_pass spiral st events = (st', e) ->
  exists added, r_effects st' = r_effects st ++ added /\ tile_effects samples_per_pass added.
Proof.
  induction events as [|ev events IH]; intros st st' e Hrun; simpl in Hrun.
  - inversion Hrun; subst. exists []. rewrite app_nil_r. split; [reflexivity|constructor].
  - pose proof (step_is_spec st ev) as Hspec.
    destruct (step should_stop film_size n_passes samples_per_pass spiral st ev) as [st1|e1] eqn:Hs.
    + apply IH in Hrun. destruct Hrun as (added & Heq & Hall).
      inversion Hspec; subst; simpl in Heq; try (exists added; split; assumption).
      eexists. rewrite <- app_assoc in Heq. split; [exact Heq|].
      apply Forall_app. split; [|exact Hall].
      repeat constructor. assumption.
    + inversion Hrun; subst. exists []. rewrite app_nil_r. split; [reflexivity|constructor].
Qed.

(** The flag is set by a call of [cancel()] and by nothing else. *)
Lemma run_stop_flag : forall events st st',
  run should_stop film_size n_passes samples_per_pass spiral st events = (st', None) ->
  m_stop (r_this st') = m_stop (r_this st) || existsb is_cancel events.
Proof.
  induction events as [|ev events IH]; intros st st' Hrun; simpl in Hrun.
  - inversion Hrun; subst. simpl. rewrite orb_false_r. reflexivity.
  - pose proof (step_is_spec st ev) as Hspec.
    destruct (step should_stop film_size n_passes samples_per_pass spiral st ev) as [st1|e1] eqn:Hs; [|discriminate Hrun].
    apply IH in Hrun. rewrite Hrun.
    inversion Hspec; subst; simpl; try reflexivity.
    rewrite orb_true_r. reflexivity.
Qed.

End RunFacts.

(** ** The render job: sample counts and passes *)

Lemma effective_samples_per_pass_reset {F : Type} (this : SamplingIntegrator F)
    (stop : bool) (total_spp : Z) :
  effective_samples_per_pass
    (mkSamplingIntegrator (m_block_size this) (m_samples_per_pass this)
                          (m_timeout this) stop) total_spp
  = effective_samples_per_pass this total_spp.
Proof. reflexivity. Qed.

(** The quotient of an exact multiple comes out of the floating-point
    computation of line 61 unharmed. *)
Lemma pass_count_exact {F : Type} `{ScalarFloatOps F} {bound : Z}
    {exact : ScalarFloatExact F bound} (total_spp samples_per_pass : Z) :
  0 < samples_per_pass -> 0 < total_spp < bound ->
  total_spp mod samples_per_pass = 0 ->
  pass_count total_spp samples_per_pass = total_spp / samples_per_pass.
Proof.
  intros Hspp Htotal Hmod. unfold pass_count.
  assert (Hk : total_spp = total_spp / samples_per_pass * samples_per_pass).
  { rewrite Z.mul_comm. apply Z.div_exact; lia. }
  assert (Hpos : 0 < total_spp / samples_per_pass).
  { apply Z.div_str_pos. split; [lia|].
    destruct (Z_le_gt_dec samples_per_pass total_spp) as [Hle|Hgt]; [exact Hle|].
    rewrite Z.mod_small in Hmod; lia. }
  rewrite Hk at 1. apply ceil_div_exact; [exact Hpos | exact Hspp | lia].
Qed.

(** What [render()] hands out once the job has started. *)
Lemma render_started {F : Type} `{ScalarFloatOps F}
    (should_stop : SamplingIntegrator F -> F -> bool)
    (Spiral_new : Film -> Z -> Z -> Spiral)
    (this : SamplingIntegrator F) (sensor : Sensor F)
    (ranges : list (Z * Z)) (events : list (Event F)) (job : Job) :
  start_job Spiral_new this sensor ranges = inr job ->
  exists added closing,
    snd (render should_stop Spiral_new this sensor ranges events)
    = r_effects (j_start job) ++ added ++ closing
    /\ tile_effects (j_samples_per_pass job) added
    /\ (closing = [] \/ closing = [LogFinished]).
Proof.
  intros Hjob. unfold render. rewrite Hjob. unfold run_job.
  destruct (run should_stop (j_film_size job) (j_n_passes job) (j_samples_per_pass job)
                (j_spiral job) (j_start job) events) as [st e] eqn:Hrun.
  apply run_effects in Hrun. destruct Hrun as (added & Heq & Hall).
  exists added. unfold finish. destruct e as [e|].
  - exists []. simpl. rewrite app_nil_r. auto.
  - destruct (forallb l_left (r_loops st)); simpl.
    + eexists. rewrite Heq, <- app_assoc. split; [reflexivity|]. split; [exact Hall|].
      destruct (m_stop (r_this st)); simpl; auto.
    + exists []. rewrite app_nil_r. auto.
Qed.

Lemma start_job_inv {F : Type} `{ScalarFloatOps F}
    (Spiral_new : Film -> Z -> Z -> Spiral)
    (this : SamplingIntegrator F) (sensor : Sensor F) (ranges : list (Z * Z)) (job : Job) :
  start_job Spiral_new this sensor ranges = inr job ->
  let samples_per_pass := effective_samples_per_pass this (sample_count sensor) in
  samples_per_pass <> 0
  /\ sample_count sensor mod samples_per_pass = 0
  /\ j_samples_per_pass job = samples_per_pass
  /\ j_n_passes job = pass_count (sample_count sensor) samples_per_pass
  /\ j_film_size job = crop_size (film sensor)
  /\ j_spiral job = Spiral_new (film sensor) (m_block_size this) (j_n_passes job)
  /\ m_stop (r_this (j_start job)) = false
  /\ r_loops (j_start job) = map (fun r => mkLoop (fst r) (snd r) false) ranges
  /\ r_effects (j_start job)
     = [FilmClear; LogStarting (sample_count sensor) (j_n_passes job)]
       ++ (if fpositive (m_timeout this) then [LogTimeout (m_timeout this)] else []).
Proof.
  intros Hjob samples_per_pass. unfold start_job in Hjob.
  rewrite effective_samples_per_pass_reset in Hjob. fold samples_per_pass in Hjob.
  destruct (Z.eqb_spec samples_per_pass 0) as [Hz|Hz]; [discriminate Hjob|].
  destruct (Z.eqb_spec (sample_count sensor mod samples_per_pass) 0) as [Hm|Hm];
    simpl in Hjob; [|discriminate Hjob].
  inversion Hjob; subst job; simpl. repeat split; assumption || reflexivity.
Qed.

Lemma start_job_this {F : Type} `{ScalarFloatOps F}
    (Spiral_new : Film -> Z -> Z -> Spiral)
    (this : SamplingIntegrator F) (sensor : Sensor F) (ranges : list (Z * Z)) (job : Job) :
  start_job Spiral_new this sensor ranges = inr job ->
  r_this (j_start job)
  = mkSamplingIntegrator (m_block_size this) (m_samples_per_pass this)
                         (m_timeout this) false.
Proof.
  unfold start_job. destruct (_ =? 0); [intros Heq; discriminate Heq|].
  destruct (negb _); intros Heq; inversion Heq. reflexivity.
Qed.

(** C4. With a per-pass sample count that is not zero: when the total sample
    count is not a multiple of it, [render()] throws and has done nothing
    (the film is not cleared, no tile is rendered); otherwise the job starts
    with exactly [total / per-pass] passes, and every tile is rendered with
    the per-pass sample count. *)
Theorem render_checks_sample_count {F : Type} `{ScalarFloatOps F} {bound : Z}
    {exact : ScalarFloatExact F bound}
    (should_stop : SamplingIntegrator F -> F -> bool)
    (Spiral_new : Film -> Z -> Z -> Spiral)
    (this : SamplingIntegrator F) (sensor : Sensor F)
    (ranges : list (Z * Z)) (events : list (Event F)) :
  let total_spp := sample_count sensor in
  let samples_per_pass := effective_samples_per_pass this total_spp in
  0 < samples_per_pass ->
  (total_spp mod samples_per_pass <> 0 ->
   render should_stop Spiral_new this sensor ranges events
   = (Thrown (SampleCountNotMultiple total_spp samples_per_pass), []))
  /\ (total_spp mod samples_per_pass = 0 -> 0 < total_spp < bound ->
      pass_count total_spp samples_per_pass = total_spp / samples_per_pass
      /\ (exists job,
            start_job Spiral_new this sensor ranges = inr job
            /\ j_n_passes job = total_spp / samples_per_pass
            /\ j_samples_per_pass job = samples_per_pass)
      /\ (forall w blk n,
            In (RenderBlock w blk n)
               (snd (render should_stop Spiral_new this sensor ranges events)) ->
            n = samples_per_pass)).
Proof.
  intros total_spp samples_per_pass Hpos. split.
  - intros Hmod. unfold render, start_job.
    rewrite effective_samples_per_pass_reset.
    fold total_spp. fold samples_per_pass.
    destruct (Z.eqb_spec samples_per_pass 0) as [Hz|Hz]; [lia|].
    destruct (Z.eqb_spec (total_spp mod samples_per_pass) 0) as [Hm|Hm];
      [contradiction|]. reflexivity.
  - intros Hmod Htotal.
    assert (Hpasses : pass_count total_spp samples_per_pass = total_spp / samples_per_pass)
      by (apply pass_count_exact; assumption).
    assert (Hjob : exists job, start_job Spiral_new this sensor ranges = inr job).
    { unfold start_job. rewrite effective_samples_per_pass_reset.
      fold total_spp. fold samples_per_pass.
      destruct (Z.eqb_spec samples_per_pass 0) as [Hz|Hz]; [lia|].
      destruct (Z.eqb_spec (total_spp mod samples_per_pass) 0) as [Hm|Hm];
        [|contradiction]. simpl. eexists. reflexivity. }
    destruct Hjob as [job Hjob].
    pose proof (start_job_inv _ _ _ _ _ Hjob) as (_ & _ & Hspp & Hnp & _ & _ & _ & _ & Hstart).
    fold total_spp in Hspp, Hnp. fold samples_per_pass in Hspp, Hnp.
    split; [exact Hpasses|]. split.
    + exists job. rewrite Hnp, Hpasses. auto.
    + intros w blk n Hin.
      destruct (render_started should_stop _ _ _ _ events _ Hjob)
        as (added & closing & Heq & Hall & Hclosing).
      rewrite Heq, Hstart in Hin.
      rewrite !in_app_iff in Hin. destruct Hin as [[Hin|Hin]|[Hin|Hin]].
      * simpl in Hin. destruct Hin as [Hin|[Hin|[]]]; discriminate Hin.
      * destruct (fpositive (m_timeout this)); simpl in Hin;
          [destruct Hin as [Hin|[]]; discriminate Hin | destruct Hin].
      * unfold tile_effects in Hall. rewrite Forall_forall in Hall.
        apply list_elem_of_In in Hin. apply Hall in Hin. simpl in Hin.
        rewrite <- Hspp. apply Hin.
      * destruct Hclosing as [-> | ->]; simpl in Hin;
          [destruct Hin | destruct Hin as [Hin|[]]; discriminate Hin].
Qed.

Lemma render_checks_sample_count_witness :
  render should_stop_flag raster_spiral (integrator_1px 16 (-1)) (sensor_2x1 50) [(0, 2)] []
  = (Thrown (SampleCountNotMultiple 50 16), [])
  /\ pass_count (F := float) 64 16 = 64 / 16.
Proof.
  split.
  - apply (render_checks_sample_count (bound := b64_exact_bound) (exact := binary64_exact)
             should_stop_flag raster_spiral
             (integrator_1px 16 (-1)) (sensor_2x1 50) [(0, 2)] []).
    + vm_compute. reflexivity.
    + vm_compute. discriminate.
  - apply (render_checks_sample_count (bound := b64_exact_bound) (exact := binary64_exact)
             should_stop_flag raster_spiral
             (integrator_1px 16 (-1)) (sensor_2x1 64) [(0, 8)] []).
    + vm_compute. reflexivity.
    + vm_compute. reflexivity.
    + vm_compute. split; reflexivity.
Defined.

(** The cases the spec names, run on binary64: 64 samples in passes of 16
    are 4 passes; 50 samples in passes of 16 are refused. *)
Example pass_count_64_16 :
  pass_count (F := float) 64 16 = 4
  /\ fst (render should_stop_flag raster_spiral (integrator_1px 16 (-1)) (sensor_2x1 50)
                 [(0, 2)] [Work 0 0%float])
     = Thrown (SampleCountNotMultiple 50 16).
Proof. split; vm_compute; reflexivity. Qed.

(** C10. For a total sample count that fits 32 bits (and is exact in the
    floating-point type): a configured [samples_per_pass] takes effect as the
    smaller of itself and the total; when it is larger than the total, or
    left out (the sentinel), the whole total is used, the job is not refused
    for its sample counts, and it has a single pass. *)
Theorem render_clamps_samples_per_pass {F : Type} `{ScalarFloatOps F} {bound : Z}
    {exact : ScalarFloatExact F bound}
    (MTS_BLOCK_SIZE : Z) (round_to_power_of_two : Z -> Z)
    (props : Properties F) (stop0 : bool) (sensor : Sensor F) :
  let this := SamplingIntegrator_new MTS_BLOCK_SIZE round_to_power_of_two props stop0 in
  let total_spp := sample_count sensor in
  let configured := p_integers props !! "samples_per_pass" in
  0 < total_spp < 2 ^ 32 -> total_spp < bound ->
  (forall v, configured = Some v -> 0 <= v < 2 ^ 32 ->
             effective_samples_per_pass this total_spp = Z.min v total_spp)
  /\ ((configured = None \/ exists v, configured = Some v /\ total_spp <= v < 2 ^ 32) ->
      effective_samples_per_pass this total_spp = total_spp
      /\ pass_count total_spp (effective_samples_per_pass this total_spp) = 1
      /\ (forall should_stop Spiral_new ranges events,
            exists job, start_job Spiral_new this sensor ranges = inr job
                        /\ j_n_passes job = 1
                        /\ j_samples_per_pass job = total_spp
                        /\ forall e, fst (render should_stop Spiral_new this sensor
                                                 ranges events) = Thrown e ->
                                     e = EmptyImageBlock)).
Proof.
  intros this total_spp configured Htotal Hbound.
  assert (Hm : m_samples_per_pass this
               = u32 (default SIZE_MAX configured)) by reflexivity.
  assert (Hv : forall v, configured = Some v -> 0 <= v < 2 ^ 32 ->
                         effective_samples_per_pass this total_spp = Z.min v total_spp).
  { intros v Hc Hrange. unfold effective_samples_per_pass.
    rewrite Hm, Hc. simpl. rewrite u32_small by exact Hrange.
    destruct (Z.eqb_spec v SIZE_MAX) as [He|He]; [|reflexivity].
    unfold SIZE_MAX in He. lia. }
  split; [exact Hv|].
  intros Hcase.
  assert (Heff : effective_samples_per_pass this total_spp = total_spp).
  { destruct Hcase as [Hnone | (v & Hc & Hrange)].
    - unfold effective_samples_per_pass. rewrite Hm, Hnone. simpl.
      change (u32 SIZE_MAX) with (2 ^ 32 - 1).
      change (2 ^ 32 - 1 =? SIZE_MAX) with false. cbv iota. lia.
    - rewrite (Hv v Hc) by lia. lia. }
  assert (Hpass : pass_count total_spp total_spp = 1).
  { rewrite pass_count_exact; [apply Z.div_same; lia | lia | lia | apply Z.mod_same; lia]. }
  split; [exact Heff|]. rewrite Heff. split; [exact Hpass|].
  intros should_stop Spiral_new ranges events.
  assert (Hjob : exists job, start_job Spiral_new this sensor ranges = inr job).
  { unfold start_job. rewrite effective_samples_per_pass_reset.
    fold total_spp. rewrite Heff.
    destruct (Z.eqb_spec total_spp 0) as [Hz|Hz]; [lia|].
    rewrite Z.mod_same by lia. simpl. eexists. reflexivity. }
  destruct Hjob as [job Hjob]. exists job. split; [exact Hjob|].
  pose proof (start_job_inv _ _ _ _ _ Hjob) as (_ & _ & Hspp & Hnp & _).
  fold total_spp in Hspp, Hnp. rewrite Heff in Hspp, Hnp.
  split; [rewrite Hnp; exact Hpass|]. split; [exact Hspp|].
  intros e. unfold render. rewrite Hjob. unfold run_job, finish.
  destruct (run should_stop (j_film_size job) (j_n_passes job) (j_samples_per_pass job)
                (j_spiral job) (j_start job) events) as [st [e'|]] eqn:Hrun.
  - simpl. intros Heq. inversion Heq; subst e'.
    eapply run_throws_empty_block. exact Hrun.
  - destruct (forallb l_left (r_loops st)); simpl; intros Heq; discriminate Heq.
Qed.

Lemma render_clamps_samples_per_pass_witness :
  effective_samples_per_pass
    (SamplingIntegrator_new (F := float) 32 (fun z => z)
       (mkProperties float {[ "samples_per_pass" := 100 ]} ∅) false) 64
  = Z.min 100 64
  /\ pass_count (F := float) 64
       (effective_samples_per_pass
          (SamplingIntegrator_new (F := float) 32 (fun z => z)
             (mkProperties float ∅ ∅) false) 64) = 1.
Proof.
  split.
  - destruct (render_clamps_samples_per_pass
                (bound := b64_exact_bound) (exact := binary64_exact)
                32 (fun z => z) (mkProperties float {[ "samples_per_pass" := 100 ]} ∅)
                false (sensor_2x1 64)) as [Hmin _].
    + vm_compute. split; reflexivity.
    + vm_compute. reflexivity.
    + apply (Hmin 100).
      * vm_compute. reflexivity.
      * vm_compute. split; [discriminate | reflexivity].
  - destruct (render_clamps_samples_per_pass
                (bound := b64_exact_bound) (exact := binary64_exact)
                32 (fun z => z) (mkProperties float ∅ ∅) false (sensor_2x1 64))
      as [_ Hsingle].
    + vm_compute. split; reflexivity.
    + vm_compute. reflexivity.
    + apply Hsingle. left. vm_compute. reflexivity.
Defined.

(** ** The render job: cancellation and completion *)



Lemma remaining_insert (loops : list Loop) : forall (w : nat) (l l' : Loop),
  loops !! w = Some l ->
  remaining (<[w := l']> loops)
  = remaining loops - (l_end l - l_next l) + (l_end l' - l_next l').
Proof.
  induction loops as [|l0 loops IH]; intros w l l' Hl.
  - discriminate Hl.
  - destruct w as [|w]; simpl in *.
    + inversion Hl; subst. lia.
    + rewrite (IH w l l' Hl). lia.
Qed.

Lemma remaining_start (ranges : list (Z * Z)) :
  remaining (map (fun r => mkLoop (fst r) (snd r) false) ranges) = units ranges.
Proof.
  induction ranges as [|r ranges IH]; simpl; [reflexivity|]. rewrite IH. reflexivity.
Qed.


Lemma tiles_put_app {F : Type} (xs ys : list (Effect F)) :
  tiles_put (xs ++ ys) = tiles_put xs + tiles_put ys.
Proof.
  induction xs as [|e xs IH]; simpl; [reflexivity|].
  destruct e; rewrite IH; lia.
Qed.

Lemma rendered_app {F : Type} (xs ys : list (Effect F)) :
  rendered (xs ++ ys) = rendered xs ++ rendered ys.
Proof.
  induction xs as [|e xs IH]; simpl; [reflexivity|].
  destruct e; rewrite IH; reflexivity.
Qed.

(** Ranges that cut [lo, hi) hold [hi - lo] iterations. *)
Lemma units_of_splits (ranges : list (Z * Z)) : forall lo hi,
  splits lo hi ranges -> units ranges = hi - lo.
Proof.
  induction ranges as [|r ranges IH]; intros lo hi Hs; simpl in *.
  - lia.
  - destruct Hs as (Hlo & _ & Hrest). rewrite (IH _ _ Hrest). lia.
Qed.

Section Cancellation.
Context {F : Type} `{ScalarFloatOps F}.
Variable should_stop : SamplingIntegrator F -> F -> bool.
Variables (film_size : Vector2) (n_passes samples_per_pass : Z) (spiral : Spiral).





End Cancellation.

(** ** The render job: what [render()] returns *)

Section RenderFacts.
Context {F : Type} `{ScalarFloatOps F}.
Variable should_stop : SamplingIntegrator F -> F -> bool.
Variable Spiral_new : Film -> Z -> Z -> Spiral.
Variables (this : SamplingIntegrator F) (sensor : Sensor F) (ranges : list (Z * Z)).

(** A job that does not start ends in an exception or in the division by
    zero. *)
Lemma start_job_fails (out : Outcome) :
  start_job Spiral_new this sensor ranges = inl out ->
  out = DivisionByZero \/ exists e, out = Thrown e.
Proof.
  unfold start_job.
  destruct (_ =? 0); [intros Heq; inversion Heq; auto|].
  destruct (negb _); intros Heq; inversion Heq. right. eexists. reflexivity.
Qed.

(** The value returned is the negation of the flag, and the flag tells
    whether [cancel()] was called. *)
Lemma render_returned_flag (events : list (Event F)) (b : bool) :
  fst (render should_stop Spiral_new this sensor ranges events) = Returned b ->
  b = negb (existsb is_cancel events).
Proof.
  unfold render.
  destruct (start_job Spiral_new this sensor ranges) as [out|job] eqn:Hjob.
  - destruct (start_job_fails _ Hjob) as [-> | [e ->]]; simpl; intros Heq; discriminate Heq.
  - pose proof (start_job_inv _ _ _ _ _ Hjob) as (_ & _ & _ & _ & _ & _ & Hstop & _).
    unfold run_job, finish.
    destruct (run should_stop (j_film_size job) (j_n_passes job) (j_samples_per_pass job)
                  (j_spiral job) (j_start job) events) as [st [e|]] eqn:Hrun.
    + simpl. intros Heq. discriminate Heq.
    + apply run_stop_flag in Hrun. rewrite Hstop in Hrun. simpl in Hrun.
      destruct (forallb l_left (r_loops st)); simpl; intros Heq; [|discriminate Heq].
      inversion Heq. rewrite Hrun. reflexivity.
Qed.

(** The tiles [render()] has rendered: each with the job's sample count and
    with an extent whose product is not zero. *)
Lemma render_rendered_tiles (events : list (Event F)) (w : nat) (blk : Block) (n : Z) :
  In (RenderBlock w blk n) (snd (render should_stop Spiral_new this sensor ranges events)) ->
  exists job, start_job Spiral_new this sensor ranges = inr job
              /\ n = j_samples_per_pass job
              /\ hprod (b_size blk) <> 0.
Proof.
  intros Hin.
  destruct (start_job Spiral_new this sensor ranges) as [out|job] eqn:Hjob.
  - unfold render in Hin. rewrite Hjob in Hin. destruct Hin.
  - exists job. split; [reflexivity|].
    pose proof (start_job_inv _ _ _ _ _ Hjob) as (_ & _ & _ & _ & _ & _ & _ & _ & Hstart).
    destruct (render_started should_stop _ _ _ _ events _ Hjob)
      as (added & closing & Heq & Hall & Hclosing).
    rewrite Heq, Hstart in Hin.
    rewrite !in_app_iff in Hin. destruct Hin as [[Hin|Hin]|[Hin|Hin]].
    + simpl in Hin. destruct Hin as [Hin|[Hin|[]]]; discriminate Hin.
    + destruct (fpositive (m_timeout this)); simpl in Hin;
        [destruct Hin as [Hin|[]]; discriminate Hin | destruct Hin].
    + unfold tile_effects in Hall. rewrite Forall_forall in Hall.
      apply list_elem_of_In in Hin. apply Hall in Hin. exact Hin.
    + destruct Hclosing as [-> | ->]; simpl in Hin;
        [destruct Hin | destruct Hin as [Hin|[]]; discriminate Hin].
Qed.

Lemma start_job_no_tiles (job : Job) :
  start_job Spiral_new this sensor ranges = inr job ->
  tiles_put (r_effects (j_start job)) = 0 /\ rendered (r_effects (j_start job)) = [].
Proof.
  intros Hjob.
  pose proof (start_job_inv _ _ _ _ _ Hjob) as (_ & _ & _ & _ & _ & _ & _ & _ & Hstart).
  rewrite Hstart. destruct (fpositive (m_timeout this)); split; reflexivity.
Qed.

End RenderFacts.

(** C3 (as amended). A configured timeout is logged and sets no flag: when
    [cancel()] is not called, a [render()] that returns returns [true],
    whatever the timeout, whatever the timer reads and whatever
    [should_stop()] makes of them; the flag is [false] when the workers start
    and a positive timeout is in the log by then. *)
Theorem render_timeout_sets_no_flag {F : Type} `{ScalarFloatOps F}
    (should_stop : SamplingIntegrator F -> F -> bool)
    (Spiral_new : Film -> Z -> Z -> Spiral)
    (this : SamplingIntegrator F) (sensor : Sensor F)
    (ranges : list (Z * Z)) (events : list (Event F)) :
  existsb is_cancel events = false ->
  (forall b, fst (render should_stop Spiral_new this sensor ranges events) = Returned b ->
             b = true)
  /\ (forall job, start_job Spiral_new this sensor ranges = inr job ->
        m_stop (r_this (j_start job)) = false
        /\ (fpositive (m_timeout this) = true ->
            In (LogTimeout (m_timeout this)) (r_effects (j_start job)))
        /\ forall st, run_job should_stop job (j_start job) events = (st, None) ->
                      m_stop (r_this st) = false).
Proof.
  intros Hnc. split.
  - intros b Hret. apply render_returned_flag in Hret. rewrite Hnc in Hret. exact Hret.
  - intros job Hjob.
    pose proof (start_job_inv _ _ _ _ _ Hjob) as (_ & _ & _ & _ & _ & _ & Hstop & _ & Hstart).
    split; [exact Hstop|]. split.
    + intros Hpos. rewrite Hstart, Hpos. simpl. auto.
    + intros st Hrun. unfold run_job in Hrun. apply run_stop_flag in Hrun.
      rewrite Hrun, Hstop, Hnc. reflexivity.
Qed.

Lemma render_timeout_sets_no_flag_witness :
  (forall b,
     fst (render should_stop_timeout raster_spiral (integrator_1px 1 1%float)
                 (sensor_2x1 1) [(0, 2)] [Work 0 5%float]) = Returned b ->
     b = true)
  /\ (forall job,
        start_job raster_spiral (integrator_1px 1 1%float) (sensor_2x1 1) [(0, 2)]
        = inr job ->
        m_stop (r_this (j_start job)) = false
        /\ (fpositive (m_timeout (integrator_1px 1 1%float)) = true ->
            In (LogTimeout (m_timeout (integrator_1px 1 1%float)))
               (r_effects (j_start job)))
        /\ forall st,
             run_job should_stop_timeout job (j_start job) [Work 0 5%float] = (st, None) ->
             m_stop (r_this st) = false).
Proof.
  apply (render_timeout_sets_no_flag should_stop_timeout raster_spiral
           (integrator_1px 1 1%float) (sensor_2x1 1) [(0, 2)] [Work 0 5%float]).
  reflexivity.
Defined.

(** C3, the claim as stated fails.  The timeout is one second and the timer
    reads five.  With a [should_stop()] that reports the flag only, both
    tiles are rendered after the expiry and [render()] returns [true]; with
    one that reports the expired timeout as well, no tile is rendered and
    [render()] still returns [true], and logs that the rendering finished. *)
Lemma render_timeout_counterexample :
  render should_stop_flag raster_spiral (integrator_1px 1 1%float) (sensor_2x1 1)
         [(0, 2)] [Work 0 5%float; Work 0 5%float; Work 0 5%float]
  = (Returned true,
     [FilmClear; LogStarting 1 1; LogTimeout 1%float;
      SamplerSeed 0 0; RenderBlock 0 (mkBlock (mkVector2 0 0) (mkVector2 1 1)) 1;
      FilmPut (mkBlock (mkVector2 0 0) (mkVector2 1 1));
      SamplerSeed 0 1; RenderBlock 0 (mkBlock (mkVector2 1 0) (mkVector2 1 1)) 1;
      FilmPut (mkBlock (mkVector2 1 0) (mkVector2 1 1));
      LogFinished])
  /\ render should_stop_timeout raster_spiral (integrator_1px 1 1%float) (sensor_2x1 1)
            [(0, 2)] [Work 0 5%float]
     = (Returned true, [FilmClear; LogStarting 1 1; LogTimeout 1%float; LogFinished]).
Proof. split; vm_compute; reflexivity. Qed.

(** ** The render job: cancellation *)

Section CancelledRun.
Context {F : Type} `{ScalarFloatOps F}.
Variable should_stop : SamplingIntegrator F -> F -> bool.
Variables (film_size : Vector2) (n_passes samples_per_pass : Z) (spiral : Spiral).




End CancelledRun.



(** C6, the claim as stated fails.  The timeout is one second; the worker
    renders the first of two tiles when the timer reads half a second and
    checks its loop again when the timer reads five.  [cancel()] is not
    called; with a [should_stop()] that reports the flag and the expired
    timeout, [render()] returns [true] with one tile of two on the film. *)
Lemma render_returns_counterexample :
  render should_stop_timeout raster_spiral (integrator_1px 1 1%float) (sensor_2x1 1)
         [(0, 2)] [Work 0 0.5%float; Work 0 5%float]
  = (Returned true,
     [FilmClear; LogStarting 1 1; LogTimeout 1%float;
      SamplerSeed 0 0; RenderBlock 0 (mkBlock (mkVector2 0 0) (mkVector2 1 1)) 1;
      FilmPut (mkBlock (mkVector2 0 0) (mkVector2 1 1));
      LogFinished])
  /\ tiles_put (snd (render should_stop_timeout raster_spiral (integrator_1px 1 1%float)
                            (sensor_2x1 1) [(0, 2)] [Work 0 0.5%float; Work 0 5%float]))
     = 1
  /\ units [(0, 2)] = 2
  /\ existsb is_cancel [Work 0 0.5%float; Work 0 5%float] = false.
Proof. repeat split; vm_compute; reflexivity. Qed.

(** A run that is cancelled after its first tile: the second tile is not
    rendered and [render()] returns [false]. *)
Example render_cancelled_after_first_tile :
  render should_stop_flag raster_spiral (integrator_1px 1 (-1)%float) (sensor_2x1 1)
         [(0, 2)] [Work 0 0%float; Cancel; Work 0 0%float; Cancel; Work 0 0%float]
  = (Returned false,
     [FilmClear; LogStarting 1 1;
      SamplerSeed 0 0; RenderBlock 0 (mkBlock (mkVector2 0 0) (mkVector2 1 1)) 1;
      FilmPut (mkBlock (mkVector2 0 0) (mkVector2 1 1))]).
Proof. vm_compute. reflexivity. Qed.

(** ** The render job: empty tiles *)

(** C8. A tile with a zero extent makes the worker that takes it throw,
    before anything is done for the tile: [render()] ends in the exception
    with the effects of the events before; and every tile that [render()]
    renders has an extent that is not zero in either dimension, hence, the
    extents of a tile being no negative numbers, positive in both. *)
Theorem render_rejects_empty_tile {F : Type} `{ScalarFloatOps F}
    (should_stop : SamplingIntegrator F -> F -> bool)
    (Spiral_new : Film -> Z -> Z -> Spiral)
    (this : SamplingIntegrator F) (sensor : Sensor F) (ranges : list (Z * Z)) :
  (forall job pre st w now l post,
     start_job Spiral_new this sensor ranges = inr job ->
     run_job should_stop job (j_start job) pre = (st, None) ->
     r_loops st !! w = Some l -> l_left l = false -> l_next l <> l_end l ->
     should_stop (r_this st) now = false ->
     (vx (b_size (next_block (j_spiral job) (r_calls st))) = 0
      \/ vy (b_size (next_block (j_spiral job) (r_calls st))) = 0) ->
     render should_stop Spiral_new this sensor ranges (pre ++ Work w now :: post)
     = (Thrown EmptyImageBlock, r_effects st))
  /\ (forall events w blk n,
        In (RenderBlock w blk n)
           (snd (render should_stop Spiral_new this sensor ranges events)) ->
        vx (b_size blk) <> 0 /\ vy (b_size blk) <> 0
        /\ (0 <= vx (b_size blk) -> 0 < vx (b_size blk))
        /\ (0 <= vy (b_size blk) -> 0 < vy (b_size blk))).
Proof.
  split.
  - intros job pre st w now l post Hjob Hpre Hl Hleft Hne Hgo Hzero.
    unfold render. rewrite Hjob. unfold run_job in *. rewrite run_app, Hpre.
    simpl. rewrite Hl, Hleft, Hgo.
    destruct (Z.eqb_spec (l_next l) (l_end l)) as [Heq|_]; [contradiction|]. simpl.
    unfold render_unit. rewrite (hprod_zero_extent _ Hzero). reflexivity.
  - intros events w blk n Hin.
    apply render_rendered_tiles in Hin. destruct Hin as (job & _ & _ & Hprod).
    apply hprod_nonzero in Hprod. destruct Hprod as [Hx Hy].
    repeat split; try assumption; lia.
Qed.

(** The faulty scheduler at work: the first tile is rendered, the second
    makes [render()] throw, and nothing of it reaches the sampler or the film. *)
Example render_faulty_spiral :
  render should_stop_flag faulty_spiral (integrator_1px 1 (-1)%float) (sensor_2x1 1)
         [(0, 2)] [Work 0 0%float; Work 0 0%float; Work 0 0%float]
  = (Thrown EmptyImageBlock,
     [FilmClear; LogStarting 1 1;
      SamplerSeed 0 0; RenderBlock 0 (mkBlock (mkVector2 0 0) (mkVector2 1 1)) 1;
      FilmPut (mkBlock (mkVector2 0 0) (mkVector2 1 1))]).
Proof. vm_compute. reflexivity. Qed.

(** ** The render job: seeds *)

(** In a job of one pass the seed of a tile is [offset.x + offset.y * width],
    as the spec has it. *)
Lemma tile_seed_single_pass (film_size : Vector2) (n_passes i : Z) (offset : Vector2) :
  n_passes <= 1 ->
  0 <= vx offset < 2 ^ 31 -> 0 <= vy offset < 2 ^ 31 -> 0 <= vx film_size < 2 ^ 31 ->
  tile_seed film_size n_passes i offset
  = spec_seed (vx film_size) (hprod film_size) false i offset.
Proof.
  intros Hn Hx Hy Hw. unfold tile_seed, spec_seed.
  destruct (Z.ltb_spec 1 n_passes) as [Hlt|_]; [lia|].
  rewrite (u64_small (vx offset)), (u64_small (vy offset)), (u64_small (vx film_size))
    by lia.
  assert (0 <= vy offset * vx film_size < 2 ^ 62) by nia.
  rewrite (u64_small (vy offset * vx film_size)) by lia.
  rewrite u64_small by lia. lia.
Qed.

(** In a job of several passes the last summand is the loop variable [i]
    times the number of pixels: the spec's seed with the loop variable in the
    place of the pass index. *)
Lemma tile_seed_multi_pass (film_size : Vector2) (n_passes i : Z) (offset : Vector2) :
  1 < n_passes ->
  0 <= vx offset < 2 ^ 31 -> 0 <= vy offset < 2 ^ 31 ->
  0 <= vx film_size < 2 ^ 31 -> 0 <= hprod film_size ->
  0 <= i < 2 ^ 31 ->
  tile_seed film_size n_passes i offset
  = spec_seed (vx film_size) (hprod film_size) true i offset.
Proof.
  intros Hn Hx Hy Hw Hp Hi. unfold tile_seed, spec_seed.
  destruct (Z.ltb_spec 1 n_passes) as [_|Hge]; [|lia].
  assert (Hp' : hprod film_size < 2 ^ 31).
  { unfold hprod, i32.
    pose proof (Z.mod_pos_bound (vx film_size * vy film_size + 2 ^ 31) (2 ^ 32)). lia. }
  rewrite (u64_small (vx offset)), (u64_small (vy offset)), (u64_small (vx film_size)),
    (u64_small (hprod film_size)) by lia.
  assert (0 <= vy offset * vx film_size < 2 ^ 62) by nia.
  assert (0 <= i * hprod film_size < 2 ^ 62) by nia.
  rewrite (u64_small (vy offset * vx film_size)) by lia.
  rewrite (u64_small (vx offset + _)) by lia.
  rewrite (u64_small (i * _)) by lia.
  rewrite u64_small by lia. lia.
Qed.

(** C1, the code against the claim.  A film of two tiles, rendered in two
    passes, so four iterations.  One worker running them in order seeds the
    tiles with 0, 3, 4, 7; two workers with two iterations each, taking
    turns, seed the same tiles, handed out in the same order, with 4, 1, 2,
    7; the claim has 0, 1 for the first pass and 2, 3 for the second. *)
Theorem render_seed_follows_loop_index :
  let tiles := [mkBlock (mkVector2 0 0) (mkVector2 1 1);
                mkBlock (mkVector2 1 0) (mkVector2 1 1);
                mkBlock (mkVector2 0 0) (mkVector2 1 1);
                mkBlock (mkVector2 1 0) (mkVector2 1 1)] in
  let one_worker :=
    render should_stop_flag raster_spiral (integrator_1px 1 (-1)%float) (sensor_2x1 2)
           [(0, 4)]
           [Work 0 0%float; Work 0 0%float; Work 0 0%float; Work 0 0%float;
            Work 0 0%float] in
  let two_workers :=
    render should_stop_flag raster_spiral (integrator_1px 1 (-1)%float) (sensor_2x1 2)
           [(0, 2); (2, 4)]
           [Work 1 0%float; Work 0 0%float; Work 0 0%float; Work 1 0%float;
            Work 0 0%float; Work 1 0%float] in
  fst one_worker = Returned true /\ fst two_workers = Returned true
  /\ rendered (snd one_worker) = tiles /\ rendered (snd two_workers) = tiles
  /\ seeds (snd one_worker) = [0; 3; 4; 7]
  /\ seeds (snd two_workers) = [4; 1; 2; 7]
  /\ map (fun pt : Z * Block => spec_seed 2 2 true (fst pt) (b_offset (snd pt)))
         (zip [0; 0; 1; 1] tiles)
     = [0; 1; 2; 3].
Proof. vm_compute. repeat split; reflexivity. Qed.

(** ** The loop over the samples of a tile *)

Section RenderBlockFacts.
Context {F : Type} `{ScalarFloatOps F}.
Variable morton_decode : Z -> Vector2.
Variable PacketSize : nat.

Lemma sample_loop_scale (stop : nat -> bool) (pos : Vector2) (scale : F) :
  forall n j checks,
    Forall (fun c => sc_scale c = scale) (snd (sample_loop stop n j checks pos scale)).
Proof.
  induction n as [|n IH]; intros j checks; simpl; [constructor|].
  destruct (stop checks); simpl; [constructor|].
  constructor; [reflexivity | apply IH].
Qed.

Lemma pixel_loop_scale (stop : nat -> bool) (blk : Block) (sample_count : Z) (scale : F) :
  forall n i checks,
    Forall (fun c => sc_scale c = scale)
           (snd (pixel_loop morton_decode stop blk sample_count scale n i checks)).
Proof.
  induction n as [|n IH]; intros i checks; simpl; [constructor|].
  destruct (stop checks); simpl; [constructor|].
  destruct (outside (morton_decode i) (b_size blk)); [apply IH|].
  simpl. apply Forall_app. split; [apply sample_loop_scale | apply IH].
Qed.

End RenderBlockFacts.

(** C2 (as amended). Every call of [render_sample] that [render_block]
    makes, in the scalar and in the packet form, carries the factor
    [rsqrt] of the sampler's total sample count.  It is the factor of the
    per-pass sample count when the two counts are the same: when the count
    passed is the sentinel or the sampler's own. *)
Theorem render_block_scale_factor {F : Type} `{ScalarFloatOps F}
    (morton_decode : Z -> Vector2) (PacketSize : nat) (stop : nat -> bool)
    (this : SamplingIntegrator F) (sampler_sample_count : Z) (blk : Block)
    (sample_count_ : Z) :
  Forall (fun c => sc_scale c = rsqrt (of_int sampler_sample_count))
         (render_block_scalar morton_decode stop this sampler_sample_count blk sample_count_)
  /\ Forall (fun c => pk_scale c = rsqrt (of_int sampler_sample_count))
            (render_block_packet morton_decode PacketSize this sampler_sample_count blk
                                 sample_count_)
  /\ (0 <= sampler_sample_count < 2 ^ 32 ->
      sample_count_ = SIZE_MAX \/ sample_count_ = sampler_sample_count ->
      rsqrt (of_int sampler_sample_count)
      = rsqrt (of_int (block_sample_count sampler_sample_count sample_count_))).
Proof.
  split; [|split].
  - unfold render_block_scalar. apply pixel_loop_scale.
  - unfold render_block_packet. apply Forall_forall. intros c Hc.
    apply list_elem_of_In, in_map_iff in Hc. destruct Hc as (packet & <- & _). reflexivity.
  - intros Hrange Hsame. unfold block_sample_count.
    destruct (Z.eqb_spec sample_count_ SIZE_MAX) as [Hs|Hs].
    + rewrite u32_small by exact Hrange. reflexivity.
    + destruct Hsame as [Hsame|Hsame]; [contradiction|].
      rewrite Hsame, u32_small by exact Hrange. reflexivity.
Qed.

(** C2, the claim as stated fails.  A sampler of 64 samples in passes of 16,
    on binary64: the sixteen calls for the pixel of a tile carry the factor
    1/8, not 1/4, the reciprocal root of the per-pass count. *)
Lemma render_block_scale_counterexample :
  map sc_scale
      (render_block_scalar morton_decode_bits (fun _ => false)
         (integrator_1px 16 (-1)%float) 64
         (mkBlock (mkVector2 0 0) (mkVector2 1 1)) 16)
  = repeat 0.125%float 16
  /\ rsqrt (of_int (block_sample_count 64 16)) = 0.25%float
  /\ 0.125%float <> 0.25%float.
Proof.
  split; [vm_compute; reflexivity|]. split; [vm_compute; reflexivity|].
  intros Heq.
  assert (Hb : PrimFloat.eqb 0.125%float 0.25%float = true)
    by (rewrite Heq; vm_compute; reflexivity).
  vm_compute in Hb. discriminate Hb.
Qed.

(** The factors of the spec's four sample counts, on binary64. *)
Example diff_scale_factor_values :
  map (diff_scale_factor (F := float)) [1; 4; 16; 64]
  = [1%float; 0.5%float; 0.25%float; 0.125%float].
Proof. vm_compute. reflexivity. Qed.

(** ** One sample *)

Section RenderSampleFacts.
Context {F : Type} `{ScalarFloatOps F}.
Variables V Mask : Type.
Variable broadcast : F -> V.
Variables vadd vsub vmul vdiv : V -> V -> V.
Context {Smp : Type} `{SamplerOps V Mask Smp}.


End RenderSampleFacts.

(** The draws counted on a stream: a pinhole sensor with an instantaneous
    shutter takes one draw of each kind, a sensor with an aperture and an
    open shutter two of each. *)
Example render_sample_draw_counts :
  let draws (sensor : Sensor float) :=
    let drawn := primary_samples float bool (fun x => x) PrimFloat.add PrimFloat.mul
                   sensor (mkCounted 0 0%nat 0%nat) (0%float, 0%float) true in
    (draws_1d (snd drawn), draws_2d (snd drawn), aperture_sample (fst drawn),
     time (fst drawn)) in
  draws (mkSensor film_2x1 4 false 2%float 0%float)
  = (1%nat, 1%nat, (0.5%float, 0.5%float), 2%float)
  /\ draws (mkSensor film_2x1 4 true 2%float 0.5%float)
     = (2%nat, 2%nat, (1%float, 1%float), 3%float).
Proof. vm_compute. split; reflexivity. Qed.

(** ** The two forms of the loop over a tile *)



Section RenderBlockForms.
Context {F : Type} `{ScalarFloatOps F}.
Variable morton_decode : Z -> Vector2.
Variable blk : Block.
Variable sample_count : Z.
Variable scale : F.

Lemma sample_loop_never_stopped (pos : Vector2) : forall n j checks,
  map (fun c => (sc_pixel c, sc_sample c))
      (snd (sample_loop (fun _ => false) n j checks pos scale))
  = map (fun k => (pos, k)) (zseq n j).
Proof.
  induction n as [|n IH]; intros j checks; simpl; [reflexivity|].
  rewrite IH. reflexivity.
Qed.

Lemma pixel_loop_never_stopped : forall n i checks,
  map (fun c => (sc_pixel c, sc_sample c))
      (snd (pixel_loop morton_decode (fun _ => false) blk sample_count scale n i checks))
  = concat (map (pixel_pairs morton_decode blk sample_count) (zseq n i)).
Proof.
  induction n as [|n IH]; intros i checks; simpl; [reflexivity|].
  unfold pixel_pairs at 1.
  destruct (outside (morton_decode i) (b_size blk)).
  - rewrite IH. reflexivity.
  - simpl. rewrite map_app, IH, sample_loop_never_stopped. reflexivity.
Qed.




End RenderBlockForms.




(** C9, the claim as stated fails.  A tile one pixel wide and two high at
    (4, 6) inside a block of two by two, one sample a pixel, packets of four
    lanes.  The positions (5, 6) and (5, 7) lie outside the tile.  The
    scalar form makes no call for them; the packet form masks their lanes
    and hands them to [render_sample], which passes the mask to the sampler
    and to the integrator's [sample], and every lane to [block->put]
    (lines 229-230): what a position outside the tile contributes is left
    to [ImageBlock::put], which is not told of the mask. *)
Lemma render_block_forms_counterexample :
  map (fun c => map ln_active (pk_lanes c))
      (render_block_packet morton_decode_bits 4
         (mkSamplingIntegrator 2 1 (-1)%float false) 1
         (mkBlock (mkVector2 4 6) (mkVector2 1 2)) 1)
  = [[true; false; true; false]]
  /\ positions_put_packet 4
       (render_block_packet morton_decode_bits 4
          (mkSamplingIntegrator 2 1 (-1)%float false) 1
          (mkBlock (mkVector2 4 6) (mkVector2 1 2)) 1)
     = [[(4%float, 6%float); (5%float, 6%float); (4%float, 7%float); (5%float, 7%float)]]
  /\ positions_put_scalar
       (render_block_scalar morton_decode_bits (fun _ => false)
          (mkSamplingIntegrator 2 1 (-1)%float false) 1
          (mkBlock (mkVector2 4 6) (mkVector2 1 2)) 1)
     = [[(4%float, 6%float)]; [(4%float, 7%float)]].
Proof. repeat split; vm_compute; reflexivity. Qed.

(** The same tile by hand: a tile one pixel wide and two high inside a block
    of two by two, three samples a pixel.  Both forms evaluate the pixels
    (4, 6) and (4, 7), three times each; the packet form does so in two
    packets of eight lanes, of which six are active. *)
Example render_block_forms_by_hand :
  map (fun c => (sc_pixel c, sc_sample c))
      (render_block_scalar morton_decode_bits (fun _ => false)
         (mkSamplingIntegrator 2 3 (-1)%float false) 3
         (mkBlock (mkVector2 4 6) (mkVector2 1 2)) 3)
  = [(mkVector2 4 6, 0); (mkVector2 4 6, 1); (mkVector2 4 6, 2);
     (mkVector2 4 7, 0); (mkVector2 4 7, 1); (mkVector2 4 7, 2)]
  /\ map (fun c => map ln_active (pk_lanes c))
         (render_block_packet morton_decode_bits 8
            (mkSamplingIntegrator 2 3 (-1)%float false) 3
            (mkBlock (mkVector2 4 6) (mkVector2 1 2)) 3)
     = [[true; true; true; false; false; false; true; true];
        [true; false; false; false; false; false; false; false]].
Proof. vm_compute. split; reflexivity. Qed.

(** Beyond 32 bits the number of lanes wraps: a block of 256 by 256 pixels
    with 65536 samples a pixel has no packet at all. *)
Example render_block_packet_wraps :
  render_block_packet morton_decode_bits 8
    (mkSamplingIntegrator 256 65536 (-1)%float false) 65536
    (mkBlock (mkVector2 0 0) (mkVector2 1 1)) 65536
  = [].
Proof. vm_compute. reflexivity. Qed.

(** ** More on the render job: what is rendered, in which order *)

Lemma seeds_app {F : Type} (xs ys : list (Effect F)) :
  seeds (xs ++ ys) = seeds xs ++ seeds ys.
Proof.
  induction xs as [|e xs IH]; simpl; [reflexivity|].
  destruct e; rewrite ?IH; simpl; rewrite ?IH; reflexivity.
Qed.

Lemma rendered_triples {F : Type} (samples_per_pass : Z) (tiles : list (nat * Z * Block)) :
  rendered (concat (map (tile_triple (F := F) samples_per_pass) tiles)) = map snd tiles.
Proof.
  induction tiles as [|t tiles IH]; simpl; [reflexivity|]. rewrite IH. reflexivity.
Qed.

Lemma seeds_triples {F : Type} (samples_per_pass : Z) (tiles : list (nat * Z * Block)) :
  seeds (concat (map (tile_triple (F := F) samples_per_pass) tiles))
  = map (fun t => snd (fst t)) tiles.
Proof.
  induction tiles as [|t tiles IH]; simpl; [reflexivity|]. rewrite IH. reflexivity.
Qed.

Lemma tiles_put_triples {F : Type} (samples_per_pass : Z) (tiles : list (nat * Z * Block)) :
  tiles_put (concat (map (tile_triple (F := F) samples_per_pass) tiles))
  = Z.of_nat (length tiles).
Proof.
  induction tiles as [|t tiles IH]; [reflexivity|].
  cbn [map concat tile_triple app tiles_put foldr length] in *.
  unfold tiles_put in IH. rewrite IH. lia.
Qed.

Section RunOrder.
Context {F : Type} `{ScalarFloatOps F}.
Variable should_stop : SamplingIntegrator F -> F -> bool.
Variables (film_size : Vector2) (n_passes samples_per_pass : Z) (spiral : Spiral).

(** A run adds the effects of whole tiles: the tiles are those the spiral
    hands out, in its order, each seeded from its own offset and the loop
    variable of the iteration that took it. *)
Lemma run_tiles : forall events st st' e,
  run should_stop film_size n_passes samples_per_pass spiral st events = (st', e) ->
  exists tiles,
    r_effects st' = r_effects st ++ concat (map (tile_triple samples_per_pass) tiles)
    /\ r_calls st' = (r_calls st + length tiles)%nat
    /\ r_blocks_done st' = r_blocks_done st + Z.of_nat (length tiles)
    /\ map snd tiles = map (next_block spiral) (seq (r_calls st) (length tiles))
    /\ Forall (fun t => exists i k,
                 snd t = next_block spiral k
                 /\ snd (fst t) = tile_seed film_size n_passes i (b_offset (snd t))) tiles.
Proof.
  induction events as [|ev events IH]; intros st st' e Hrun; simpl in Hrun.
  - inversion Hrun; subst. exists []. simpl. rewrite app_nil_r, Nat.add_0_r, Z.add_0_r.
    repeat split; constructor.
  - pose proof (step_is_spec should_stop film_size n_passes samples_per_pass spiral st ev)
      as Hspec.
    destruct (step should_stop film_size n_passes samples_per_pass spiral st ev)
      as [st1|e1] eqn:Hs.
    + apply IH in Hrun. destruct Hrun as (tiles & Heff & Hcalls & Hdone & Horder & Hseeds).
      inversion Hspec as
        [ | w now Hidle | w now l Hl Hleft Hwhy
        | w now l Hl Hleft Hne Hgo Hempty | w now l Hl Hleft Hne Hgo Hfull ];
        subst; simpl in *; try (exists tiles; repeat split; assumption).
      exists ((w, tile_seed film_size n_passes (l_next l)
                            (b_offset (next_block spiral (r_calls st))),
               next_block spiral (r_calls st)) :: tiles).
      simpl. rewrite <- app_assoc in Heff. repeat split.
      * exact Heff.
      * lia.
      * lia.
      * f_equal. exact Horder.
      * constructor; [exists (l_next l), (r_calls st); split; reflexivity | exact Hseeds].
    + inversion Hrun; subst. exists []. simpl. rewrite app_nil_r, Nat.add_0_r, Z.add_0_r.
      repeat split; constructor.
Qed.

(** No range is overrun: what the loops have still to do and the tiles put
    add up to the same number throughout, and an exception leaves an
    iteration undone. *)
Lemma run_accounts : forall events st st' e,
  Forall (fun l => l_next l <= l_end l) (r_loops st) ->
  run should_stop film_size n_passes samples_per_pass spiral st events = (st', e) ->
  Forall (fun l => l_next l <= l_end l) (r_loops st')
  /\ tiles_put (r_effects st') + remaining (r_loops st')
     = tiles_put (r_effects st) + remaining (r_loops st)
  /\ (e <> None -> 1 <= remaining (r_loops st')).
Proof.
  assert (Hnonneg : forall loops, Forall (fun l => l_next l <= l_end l) loops ->
                                  0 <= remaining loops).
  { induction 1 as [|l loops Hl _ IHl]; simpl; lia. }
  assert (Hone : forall loops w l, Forall (fun l => l_next l <= l_end l) loops ->
                   loops !! w = Some l -> l_end l - l_next l <= remaining loops).
  { induction loops as [|l0 loops IHl]; intros w l Hall Hw; [discriminate Hw|].
    inversion Hall as [|? ? Hl0 Hrest]; subst. destruct w as [|w]; simpl in *.
    - inversion Hw; subst. specialize (Hnonneg _ Hrest). lia.
    - specialize (IHl w l Hrest Hw). lia. }
  induction events as [|ev events IH]; intros st st' e Hinv Hrun; simpl in Hrun.
  - inversion Hrun; subst. repeat split; [assumption | intros Hne; contradiction].
  - pose proof (step_is_spec should_stop film_size n_passes samples_per_pass spiral st ev)
      as Hspec.
    destruct (step should_stop film_size n_passes samples_per_pass spiral st ev)
      as [st1|e1] eqn:Hs.
    + assert (Hst1 : Forall (fun l => l_next l <= l_end l) (r_loops st1)
                     /\ tiles_put (r_effects st1) + remaining (r_loops st1)
                        = tiles_put (r_effects st) + remaining (r_loops st)).
      { inversion Hspec as
          [ | w now Hidle | w now l Hl Hleft Hwhy
          | w now l Hl Hleft Hne Hgo Hempty | w now l Hl Hleft Hne Hgo Hfull ];
          subst; simpl in *; auto.
        - assert (Hl' : l_next l <= l_end l).
          { rewrite Forall_forall in Hinv. apply Hinv.
            apply list_elem_of_lookup. exists w. exact Hl. }
          split; [apply Forall_insert; [exact Hinv | exact Hl']|].
          rewrite (remaining_insert _ w l _ Hl). simpl. lia.
        - assert (Hl' : l_next l <= l_end l).
          { rewrite Forall_forall in Hinv. apply Hinv.
            apply list_elem_of_lookup. exists w. exact Hl. }
          split; [apply Forall_insert; [exact Hinv | simpl; lia]|].
          rewrite (remaining_insert _ w l _ Hl), tiles_put_app. simpl. lia. }
      destruct Hst1 as [Hinv1 Hsum1].
      destruct (IH st1 st' e Hinv1 Hrun) as (Hinv' & Hsum & Hleft').
      repeat split; [exact Hinv' | lia | exact Hleft'].
    + inversion Hrun; subst. repeat split; [assumption|].
      intros _. inversion Hspec as
        [ | w now Hidle | w now l Hl Hleft Hwhy
        | w now l Hl Hleft Hne Hgo Hempty | w now l Hl Hleft Hne Hgo Hfull ]; subst.
      assert (Hl' : l_next l <= l_end l).
      { rewrite Forall_forall in Hinv. apply Hinv.
        apply list_elem_of_lookup. exists w. exact Hl. }
      pose proof (Hone _ _ _ Hinv Hl). lia.
Qed.

End RunOrder.



(** X2. In a job of one pass the seeds do not depend on the workers or on
    the order of their iterations: the seed given for a tile is
    [offset.x + offset.y * width], whoever renders it. *)
Theorem render_single_pass_seeds {F : Type} `{ScalarFloatOps F}
    (should_stop : SamplingIntegrator F -> F -> bool)
    (Spiral_new : Film -> Z -> Z -> Spiral)
    (this : SamplingIntegrator F) (sensor : Sensor F)
    (ranges : list (Z * Z)) (events : list (Event F)) (job : Job) :
  start_job Spiral_new this sensor ranges = inr job ->
  j_n_passes job <= 1 ->
  0 <= vx (crop_size (film sensor)) < 2 ^ 31 ->
  (forall k, 0 <= vx (b_offset (next_block (j_spiral job) k)) < 2 ^ 31
             /\ 0 <= vy (b_offset (next_block (j_spiral job) k)) < 2 ^ 31) ->
  seeds (snd (render should_stop Spiral_new this sensor ranges events))
  = map (fun blk => vx (b_offset blk) + vy (b_offset blk) * vx (crop_size (film sensor)))
        (rendered (snd (render should_stop Spiral_new this sensor ranges events))).
Proof.
  intros Hjob Hsingle Hwidth Hoffsets. unfold render. rewrite Hjob.
  pose proof (start_job_inv _ _ _ _ _ Hjob)
    as (_ & _ & _ & _ & Hfilm & _ & _ & _ & Hstart).
  unfold run_job.
  destruct (run should_stop (j_film_size job) (j_n_passes job) (j_samples_per_pass job)
                (j_spiral job) (j_start job) events) as [st e] eqn:Hrun.
  destruct (run_tiles _ _ _ _ _ _ _ _ _ Hrun) as (tiles & Heff & _ & _ & _ & Hseeds).
  assert (Hmain : forall closing,
            closing = [] \/ closing = [LogFinished] ->
            seeds (r_effects st ++ closing)
            = map (fun blk => vx (b_offset blk)
                              + vy (b_offset blk) * vx (crop_size (film sensor)))
                  (rendered (r_effects st ++ closing))).
  { intros closing Hc.
    rewrite Heff, Hstart, !seeds_app, !rendered_app, seeds_triples, rendered_triples.
    assert (Hnone : seeds closing = [] /\ rendered closing = [])
      by (destruct Hc as [-> | ->]; split; reflexivity).
    destruct Hnone as [-> ->].
    assert (Hlog : forall xs : list (Effect F),
              xs = [] \/ xs = [LogTimeout (m_timeout this)] ->
              seeds xs = [] /\ rendered xs = [])
      by (intros xs [-> | ->]; split; reflexivity).
    destruct (Hlog (if fpositive (m_timeout this)
                    then [LogTimeout (m_timeout this)] else []))
      as [-> ->]; [destruct (fpositive _); auto|].
    simpl. rewrite !app_nil_r, map_map.
    apply Forall_fmap_ext_1. eapply Forall_impl; [exact Hseeds|].
    intros t (i & k & Hblk & Hseed). simpl. rewrite Hseed, Hblk.
    destruct (Hoffsets k) as [Hx Hy].
    rewrite tile_seed_single_pass; [|exact Hsingle|exact Hx|exact Hy|rewrite Hfilm; exact Hwidth].
    unfold spec_seed. rewrite Hfilm. lia. }
  unfold finish. destruct e as [e|].
  - simpl. rewrite <- (app_nil_r (r_effects st)). apply Hmain. auto.
  - destruct (forallb l_left (r_loops st)); simpl.
    + apply Hmain. destruct (negb _); auto.
    + rewrite <- (app_nil_r (r_effects st)). apply Hmain. auto.
Qed.


Lemma render_single_pass_seeds_witness :
  seeds (snd (render should_stop_flag raster_spiral (integrator_1px 1 (-1)%float)
                     (sensor_2x1 1) [(0, 1); (1, 2)]
                     [Work 1 0%float; Work 0 0%float; Work 0 0%float; Work 1 0%float]))
  = map (fun blk => vx (b_offset blk)
                    + vy (b_offset blk) * vx (crop_size (film (sensor_2x1 1))))
        (rendered (snd (render should_stop_flag raster_spiral (integrator_1px 1 (-1)%float)
                               (sensor_2x1 1) [(0, 1); (1, 2)]
                               [Work 1 0%float; Work 0 0%float; Work 0 0%float;
                                Work 1 0%float]))).
Proof.
  eapply (render_single_pass_seeds should_stop_flag raster_spiral
            (integrator_1px 1 (-1)%float) (sensor_2x1 1) [(0, 1); (1, 2)]).
  - reflexivity.
  - vm_compute. discriminate.
  - vm_compute. split; [discriminate | reflexivity].
  - intros k.
    cbn [j_spiral next_block b_offset vx vy raster_spiral crop_size film sensor_2x1
         film_2x1 integrator_1px m_block_size].
    change ((2 + 1 - 1) / 1) with 2. change ((1 + 1 - 1) / 1) with 1.
    change (2 * 1) with 2.
    assert (Hk : 0 <= Z.of_nat k mod 2 < 2) by (apply Z.mod_pos_bound; reflexivity).
    rewrite (Z.mod_small _ 2 Hk), (Z.div_small _ 2 Hk).
    destruct Hk as [Hk0 Hk2]. split; split.
    + rewrite Z.mul_1_r. exact Hk0.
    + rewrite Z.mul_1_r. apply (Z.lt_trans _ 2); [exact Hk2 | reflexivity].
    + discriminate.
    + reflexivity.
Defined.


(** ** More on the render job: it comes to an end *)

Section RunToTheEnd.
Context {F : Type} `{ScalarFloatOps F}.
Variable should_stop : SamplingIntegrator F -> F -> bool.
Variables (film_size : Vector2) (n_passes samples_per_pass : Z) (spiral : Spiral).

(** A worker that is let alone runs through its range: after one check for
    each iteration and one more, its loop is left at the end of the range. *)
Lemma worker_runs_through (w : nat) (now : F) : forall (k : nat) (st : Run) (a e : Z),
  r_loops st !! w = Some (mkLoop a e false) ->
  e - a = Z.of_nat k ->
  (forall t, should_stop (r_this st) t = false) ->
  (forall c, hprod (b_size (next_block spiral c)) <> 0) ->
  exists st',
    run should_stop film_size n_passes samples_per_pass spiral st
        (replicate (S k) (Work w now)) = (st', None)
    /\ r_this st' = r_this st
    /\ r_loops st' = <[w := mkLoop e e true]> (r_loops st).
Proof.
  induction k as [|k IH]; intros st a e Hl Hlen Hquiet Hblocks.
  - assert (a = e) by lia. subst a.
    simpl. rewrite Hl. simpl. rewrite Z.eqb_refl. simpl.
    eexists. split; [reflexivity|]. split; reflexivity.
  - rewrite replicate_S. cbn [run]. unfold step at 1. rewrite Hl. cbn [l_left l_next l_end].
    destruct (Z.eqb_spec a e) as [Heq|_]; [lia|].
    rewrite Hquiet. cbn [negb andb]. unfold render_unit.
    destruct (Z.eqb_spec (hprod (b_size (next_block spiral (r_calls st)))) 0) as [Hz|_];
      [destruct (Hblocks _ Hz)|].
    assert (Hw : (w < length (r_loops st))%nat) by (eapply lookup_lt_Some; exact Hl).
    edestruct (IH (mkRun (r_this st)
                         (<[w := mkLoop (a + 1) e false]> (r_loops st))
                         (S (r_calls st)) (r_blocks_done st + 1)
                         (r_effects st
                          ++ [SamplerSeed w (tile_seed film_size n_passes a
                                               (b_offset (next_block spiral (r_calls st))));
                              RenderBlock w (next_block spiral (r_calls st)) samples_per_pass;
                              FilmPut (next_block spiral (r_calls st))]))
                  (a + 1) e) as (st' & Hrun & Hthis & Hloops).
    + simpl. apply list_lookup_insert_eq. exact Hw.
    + lia.
    + exact Hquiet.
    + exact Hblocks.
    + exists st'. split; [exact Hrun|]. split; [exact Hthis|].
      rewrite Hloops. simpl. apply list_insert_insert_eq.
Qed.

(** The workers one after the other leave every loop at the end of its
    range. *)
Lemma workers_run_through (now : F) : forall (ranges : list (Z * Z)) (done : list Loop)
    (st : Run),
  r_loops st = done ++ map (fun r => mkLoop (fst r) (snd r) false) ranges ->
  Forall (fun r => fst r <= snd r) ranges ->
  (forall t, should_stop (r_this st) t = false) ->
  (forall c, hprod (b_size (next_block spiral c)) <> 0) ->
  exists st',
    run should_stop film_size n_passes samples_per_pass spiral st
        (sequential_schedule now (length done) ranges) = (st', None)
    /\ r_this st' = r_this st
    /\ r_loops st' = done ++ map (fun r => mkLoop (snd r) (snd r) true) ranges.
Proof.
  induction ranges as [|r ranges IH]; intros done st Hloops Hranges Hquiet Hblocks.
  - simpl. exists st. simpl in Hloops. auto.
  - inversion Hranges as [|? ? Hr Hrest]; subst.
    cbn [sequential_schedule]. rewrite run_app.
    destruct (worker_runs_through (length done) now (Z.to_nat (snd r - fst r)) st
                (fst r) (snd r)) as (st1 & Hrun1 & Hthis1 & Hloops1).
    + rewrite Hloops. cbn [map]. apply list_lookup_middle. reflexivity.
    + lia.
    + exact Hquiet.
    + exact Hblocks.
    + rewrite Hrun1.
      assert (Hshape : r_loops st1
                       = (done ++ [mkLoop (snd r) (snd r) true])
                         ++ map (fun r => mkLoop (fst r) (snd r) false) ranges).
      { rewrite Hloops1, Hloops. cbn [map].
        replace (length done) with (length done + 0)%nat by lia.
        rewrite insert_app_r, <- app_assoc. reflexivity. }
      destruct (IH (done ++ [mkLoop (snd r) (snd r) true]) st1 Hshape Hrest)
        as (st' & Hrun & Hthis & Hloops').
      * intros t. rewrite Hthis1. apply Hquiet.
      * exact Hblocks.
      * rewrite length_app, Nat.add_1_r in Hrun.
        exists st'. split; [exact Hrun|]. split; [congruence|].
        rewrite Hloops', <- app_assoc. reflexivity.
Qed.

End RunToTheEnd.

(** The tiles of a started job, in short: those rendered are the first of
    the spiral, and as many as are put. *)
Lemma render_follows_spiral_aux {F : Type} `{ScalarFloatOps F}
    (should_stop : SamplingIntegrator F -> F -> bool)
    (Spiral_new : Film -> Z -> Z -> Spiral)
    (this : SamplingIntegrator F) (sensor : Sensor F)
    (ranges : list (Z * Z)) (events : list (Event F)) (job : Job) :
  start_job Spiral_new this sensor ranges = inr job ->
  exists tiles : list (nat * Z * Block),
    rendered (snd (render should_stop Spiral_new this sensor ranges events)) = map snd tiles
    /\ map snd tiles = map (next_block (j_spiral job)) (seq 0 (length tiles))
    /\ tiles_put (snd (render should_stop Spiral_new this sensor ranges events))
       = Z.of_nat (length tiles).
Proof.
  intros Hjob. unfold render. rewrite Hjob.
  destruct (start_job_no_tiles _ _ _ _ _ Hjob) as [Hput0 Hrend0].
  unfold run_job.
  destruct (run should_stop (j_film_size job) (j_n_passes job) (j_samples_per_pass job)
                (j_spiral job) (j_start job) events) as [st e] eqn:Hrun.
  destruct (run_tiles _ _ _ _ _ _ _ _ _ Hrun) as (tiles & Heff & _ & _ & Horder & _).
  assert (Hcalls0 : r_calls (j_start job) = 0%nat).
  { unfold start_job in Hjob. destruct (_ =? 0); [discriminate Hjob|].
    destruct (negb _); inversion Hjob. reflexivity. }
  rewrite Hcalls0 in Horder.
  assert (Hmain : forall closing,
            closing = [] \/ closing = [LogFinished] ->
            rendered (r_effects st ++ closing) = map snd tiles
            /\ tiles_put (r_effects st ++ closing) = Z.of_nat (length tiles)).
  { intros closing Hc.
    rewrite Heff, !rendered_app, !tiles_put_app, Hrend0, Hput0, rendered_triples,
      tiles_put_triples.
    destruct Hc as [-> | ->]; simpl; rewrite app_nil_r; split; reflexivity || lia. }
  exists tiles. unfold finish. destruct e as [e|].
  - simpl. destruct (Hmain []) as [Hr Hp]; [auto|]. rewrite app_nil_r in Hr, Hp. auto.
  - destruct (forallb l_left (r_loops st)); simpl.
    + destruct (Hmain (if negb (m_stop (r_this st)) then [LogFinished] else []))
        as [Hr Hp]; [destruct (negb _); auto|]. auto.
    + destruct (Hmain []) as [Hr Hp]; [auto|]. rewrite app_nil_r in Hr, Hp. auto.
Qed.

Lemma remaining_at_the_end (ranges : list (Z * Z)) :
  remaining (map (fun r => mkLoop (snd r) (snd r) true) ranges) = 0
  /\ forallb l_left (map (fun r => mkLoop (snd r) (snd r) true) ranges) = true.
Proof.
  induction ranges as [|r ranges [IHr IHl]]; simpl; [auto|].
  rewrite IHr, IHl. split; [lia | reflexivity].
Qed.

(** X4. [render()] comes to an end: when no tile of the spiral is empty and
    [should_stop()] reports nothing while the flag is not set, the workers
    running one after the other through ranges that do not end before they
    begin bring [render()] to return [true], with one tile put for every
    iteration of every range: the first tiles of the spiral, in its order. *)
Theorem render_sequential_completes {F : Type} `{ScalarFloatOps F}
    (should_stop : SamplingIntegrator F -> F -> bool)
    (Spiral_new : Film -> Z -> Z -> Spiral)
    (this : SamplingIntegrator F) (sensor : Sensor F)
    (ranges : list (Z * Z)) (now : F) (job : Job) :
  start_job Spiral_new this sensor ranges = inr job ->
  Forall (fun r => fst r <= snd r) ranges ->
  (forall t, should_stop (mkSamplingIntegrator (m_block_size this) (m_samples_per_pass this)
                                               (m_timeout this) false) t = false) ->
  (forall c, hprod (b_size (next_block (j_spiral job) c)) <> 0) ->
  let result :=
    render should_stop Spiral_new this sensor ranges (sequential_schedule now 0 ranges) in
  fst result = Returned true
  /\ tiles_put (snd result) = units ranges
  /\ rendered (snd result)
     = map (next_block (j_spiral job)) (seq 0 (Z.to_nat (units ranges))).
Proof.
  intros Hjob Hranges Hquiet Hblocks result.
  destruct (render_follows_spiral_aux should_stop Spiral_new this sensor ranges
              (sequential_schedule now 0 ranges) job Hjob)
    as (tiles & Hrendered & Horder & Hput).
  pose proof (start_job_inv _ _ _ _ _ Hjob) as (_ & _ & _ & _ & _ & _ & _ & Hloops & _).
  pose proof (start_job_this _ _ _ _ _ Hjob) as Hthis.
  destruct (start_job_no_tiles _ _ _ _ _ Hjob) as [Hput0 _].
  destruct (workers_run_through should_stop (j_film_size job) (j_n_passes job)
              (j_samples_per_pass job) (j_spiral job) now ranges [] (j_start job))
    as (st & Hrun & Hthis' & Hloops').
  { rewrite Hloops. reflexivity. }
  { exact Hranges. }
  { intros t. rewrite Hthis. apply Hquiet. }
  { exact Hblocks. }
  simpl in Hrun, Hloops'.
  assert (Hinv0 : Forall (fun l => l_next l <= l_end l) (r_loops (j_start job))).
  { rewrite Hloops. apply Forall_fmap. eapply Forall_impl; [exact Hranges|].
    intros r Hr. exact Hr. }
  destruct (run_accounts _ _ _ _ _ _ _ _ _ Hinv0 Hrun) as (_ & Hsum & _).
  destruct (remaining_at_the_end ranges) as [Hrem Hleft].
  rewrite Hloops', Hrem, Hput0, Hloops, remaining_start in Hsum.
  assert (Hresult : result
                    = (Returned true, r_effects st ++ [LogFinished])).
  { subst result. unfold render. rewrite Hjob. unfold run_job. rewrite Hrun.
    unfold finish. rewrite Hloops', Hleft, Hthis', Hthis. reflexivity. }
  assert (Hputs : tiles_put (snd result) = units ranges).
  { rewrite Hresult. simpl. rewrite tiles_put_app. simpl. lia. }
  split; [rewrite Hresult; reflexivity|]. split; [exact Hputs|].
  fold result in Hrendered, Hput. rewrite Hrendered, Horder.
  f_equal. f_equal. rewrite Hputs in Hput. lia.
Qed.

Lemma render_sequential_completes_witness :
  fst (render should_stop_timeout raster_spiral (integrator_1px 1 (-1)%float)
              (sensor_2x1 2) [(0, 2); (2, 4)]
              (sequential_schedule 0%float 0 [(0, 2); (2, 4)])) = Returned true
  /\ tiles_put (snd (render should_stop_timeout raster_spiral (integrator_1px 1 (-1)%float)
                            (sensor_2x1 2) [(0, 2); (2, 4)]
                            (sequential_schedule 0%float 0 [(0, 2); (2, 4)])))
     = units [(0, 2); (2, 4)].
Proof.
  edestruct (render_sequential_completes should_stop_timeout raster_spiral
               (integrator_1px 1 (-1)%float) (sensor_2x1 2) [(0, 2); (2, 4)] 0%float)
    as (Hreturned & Hput & _).
  - reflexivity.
  - repeat constructor; simpl; discriminate.
  - intros t. reflexivity.
  - intros c.
    cbn [j_spiral next_block b_size vx vy raster_spiral crop_size film sensor_2x1
         film_2x1 integrator_1px m_block_size].
    change ((2 + 1 - 1) / 1) with 2. change ((1 + 1 - 1) / 1) with 1.
    change (2 * 1) with 2.
    assert (Hk : 0 <= Z.of_nat c mod 2 < 2) by (apply Z.mod_pos_bound; reflexivity).
    rewrite (Z.mod_small _ 2 Hk), (Z.div_small _ 2 Hk).
    assert (Hcases : Z.of_nat c mod 2 = 0 \/ Z.of_nat c mod 2 = 1) by lia.
    destruct Hcases as [-> | ->]; vm_compute; discriminate.
  - split; [exact Hreturned | exact Hput].
Defined.

(** ** More on the loop over a tile: a stop cuts it short *)

Section RenderBlockStops.
Context {F : Type} `{ScalarFloatOps F}.
Variable morton_decode : Z -> Vector2.
Variable stop : nat -> bool.

(** [should_stop()] does not go back: once it has answered yes, it does so
    at every later call. *)
Hypothesis stop_stays : forall k k', (k <= k')%nat -> stop k = true -> stop k' = true.

(** The loop over the samples of a pixel makes all its calls, or a first
    part of them and then [should_stop()] has answered yes. *)
Lemma sample_loop_stopped (pos : Vector2) (scale : F) : forall n j checks checks',
  let cut := sample_loop stop n j checks pos scale in
  let full := snd (sample_loop (fun _ => false) n j checks' pos scale) in
  snd cut = full
  \/ (snd cut `prefix_of` full /\ stop (fst cut) = true).
Proof.
  induction n as [|n IH]; intros j checks checks'; simpl.
  - left. reflexivity.
  - destruct (stop checks) eqn:Hstop; simpl.
    + right. split; [apply prefix_nil|].
      apply (stop_stays checks); [lia | exact Hstop].
    + destruct (IH (j + 1) (S checks) (S checks')) as [Heq | [Hpre Hst]].
      * left. rewrite Heq. reflexivity.
      * right. split; [apply prefix_cons; exact Hpre | exact Hst].
Qed.

Lemma pixel_loop_left_at_once (blk : Block) (sample_count : Z) (scale : F) :
  forall n i checks,
    stop checks = true ->
    snd (pixel_loop morton_decode stop blk sample_count scale n i checks) = [].
Proof.
  intros [|n] i checks Hstop; simpl; [reflexivity|]. rewrite Hstop. reflexivity.
Qed.

Lemma pixel_loop_stopped (blk : Block) (sample_count : Z) (scale : F) :
  forall n i checks checks',
    snd (pixel_loop morton_decode stop blk sample_count scale n i checks)
    `prefix_of`
    snd (pixel_loop morton_decode (fun _ => false) blk sample_count scale n i checks').
Proof.
  induction n as [|n IH]; intros i checks checks'; simpl; [apply prefix_nil|].
  destruct (stop checks) eqn:Hstop; simpl; [apply prefix_nil|].
  destruct (outside (morton_decode i) (b_size blk)); [apply IH|].
  simpl.
  destruct (sample_loop_stopped (shifted (morton_decode i) (b_offset blk)) scale
              (Z.to_nat sample_count) 0 (S checks) (S checks')) as [Heq | [Hpre Hst]].
  - rewrite Heq. apply prefix_app. apply IH.
  - rewrite pixel_loop_left_at_once by exact Hst. rewrite app_nil_r.
    apply prefix_app_r. exact Hpre.
Qed.

(** X5. A stop only cuts the scalar loop over a tile short: with a
    [should_stop()] that does not go back, the calls of [render_sample] made
    are a first part of the calls made when nothing stops the loop: no
    sample is left out between two that are taken, none is taken twice, and
    none is taken after the stop. *)
Theorem render_block_stop_cuts_short (this : SamplingIntegrator F)
    (sampler_sample_count : Z) (blk : Block) (sample_count_ : Z) :
  render_block_scalar morton_decode stop this sampler_sample_count blk sample_count_
  `prefix_of`
  render_block_scalar morton_decode (fun _ => false) this sampler_sample_count blk
                      sample_count_
  /\ (stop 0%nat = true ->
      render_block_scalar morton_decode stop this sampler_sample_count blk sample_count_
      = []).
Proof.
  unfold render_block_scalar. split.
  - apply pixel_loop_stopped.
  - intros Hstop. apply pixel_loop_left_at_once. exact Hstop.
Qed.

End RenderBlockStops.

Lemma render_block_stop_cuts_short_witness :
  render_block_scalar morton_decode_bits (fun k => (4 <=? k)%nat)
    (mkSamplingIntegrator 2 3 (-1)%float false) 3
    (mkBlock (mkVector2 4 6) (mkVector2 1 2)) 3
  `prefix_of`
  render_block_scalar morton_decode_bits (fun _ => false)
    (mkSamplingIntegrator 2 3 (-1)%float false) 3
    (mkBlock (mkVector2 4 6) (mkVector2 1 2)) 3.
Proof.
  apply (render_block_stop_cuts_short morton_decode_bits (fun k => (4 <=? k)%nat)).
  intros k k' Hle Hk. apply Nat.leb_le. apply Nat.leb_le in Hk. lia.
Defined.

(** The run of the witness by hand: the stop comes at the fifth call of
    [should_stop()], after the three samples of the first pixel. *)
Example render_block_stopped_by_hand :
  map (fun c => (sc_pixel c, sc_sample c))
      (render_block_scalar morton_decode_bits (fun k => (4 <=? k)%nat)
         (mkSamplingIntegrator 2 3 (-1)%float false) 3
         (mkBlock (mkVector2 4 6) (mkVector2 1 2)) 3)
  = [(mkVector2 4 6, 0); (mkVector2 4 6, 1); (mkVector2 4 6, 2)].
Proof. vm_compute. reflexivity. Qed.

(** ** The branch of [render()] for the GPU *)






(** The job of the witness by hand: four samples in passes of two on a film
    of two pixels are two passes of four lanes, with the same seeds. *)
Example render_wide_by_hand :
  map (fun pass => (wp_seeds pass, wp_pixels pass))
      (snd (render_wide (integrator_1px 2 (-1)%float) (sensor_2x1 4) false))
  = [([0; 1; 2; 3], [mkVector2 0 0; mkVector2 0 0; mkVector2 1 0; mkVector2 1 0]);
     ([0; 1; 2; 3], [mkVector2 0 0; mkVector2 0 0; mkVector2 1 0; mkVector2 1 0])].
Proof. vm_compute. reflexivity. Qed.

(** ** More on the constructors and on the sample counts *)

(** X7. Which exception the constructor of the transport policy throws:
    [rr_depth] is checked first, so a property list with both depths out of
    range is refused for its [rr_depth]; the exception for [max_depth] means
    that [rr_depth] was in range and [max_depth] below [-1].  Every policy
    that is built has [rr_depth >= 1], [max_depth >= -1] and the sampling
    integrator of the same property list as its base. *)
Theorem MonteCarloIntegrator_new_errors {F : Type} `{ScalarFloatOps F}
    (MTS_BLOCK_SIZE : Z) (round_to_power_of_two : Z -> Z)
    (props : Properties F) (stop0 : bool) :
  let rr_depth := int_ props "rr_depth" 5 in
  let max_depth := int_ props "max_depth" (-1) in
  let built := MonteCarloIntegrator_new MTS_BLOCK_SIZE round_to_power_of_two props stop0 in
  (built = Throw RrDepthNotPositive <-> rr_depth <= 0)
  /\ (built = Throw MaxDepthInvalid <-> 1 <= rr_depth /\ max_depth < -1)
  /\ (forall e, built = Throw e -> e = RrDepthNotPositive \/ e = MaxDepthInvalid)
  /\ (forall mc, built = Ok mc ->
        1 <= m_rr_depth mc /\ -1 <= m_max_depth mc
        /\ mc_base mc
           = SamplingIntegrator_new MTS_BLOCK_SIZE round_to_power_of_two props stop0).
Proof.
  intros rr_depth max_depth built. subst built.
  unfold MonteCarloIntegrator_new. fold rr_depth. fold max_depth.
  assert (Hok : forall base : SamplingIntegrator F,
            1 <= rr_depth -> -1 <= max_depth ->
            (Ok (mkMonteCarloIntegrator base rr_depth max_depth)
             = Throw RrDepthNotPositive <-> rr_depth <= 0)
            /\ (Ok (mkMonteCarloIntegrator base rr_depth max_depth)
                = Throw MaxDepthInvalid <-> 1 <= rr_depth /\ max_depth < -1)
            /\ (forall e, Ok (mkMonteCarloIntegrator base rr_depth max_depth) = Throw e ->
                          e = RrDepthNotPositive \/ e = MaxDepthInvalid)
            /\ (forall mc, Ok (mkMonteCarloIntegrator base rr_depth max_depth) = Ok mc ->
                  1 <= m_rr_depth mc /\ -1 <= m_max_depth mc /\ mc_base mc = base)).
  { intros base Hr Hm.
    split; [split; [intros Heq; discriminate Heq | intros Hle; lia]|].
    split; [split; [intros Heq; discriminate Heq | intros [_ Hlt]; lia]|].
    split; [intros e Heq; discriminate Heq|].
    intros mc Heq. inversion Heq; subst mc. simpl. auto. }
  destruct (Z.leb_spec rr_depth 0) as [Hrr | Hrr].
  - split; [split; [intros _; exact Hrr | reflexivity]|].
    split; [split; [intros Heq; discriminate Heq | intros [Hge _]; lia]|].
    split; [intros e Heq; inversion Heq; left; reflexivity|].
    intros mc Heq. discriminate Heq.
  - destruct (Z.ltb_spec max_depth 0) as [Hmd | Hmd]; simpl.
    + destruct (Z.eqb_spec max_depth (-1)) as [Hm1 | Hm1]; simpl.
      * apply Hok; lia.
      * split; [split; [intros Heq; discriminate Heq | intros Hle; lia]|].
        split; [split; [intros _; lia | reflexivity]|].
        split; [intros e Heq; inversion Heq; right; reflexivity|].
        intros mc Heq. discriminate Heq.
    + apply Hok; lia.
Qed.

(** X8. The block size of an integrator is the rounded one in both branches
    of the constructor; the warning is written exactly when rounding changes
    the size asked for, and both numbers it shows are the new size. *)
Theorem SamplingIntegrator_new_block_size {F : Type} `{ScalarFloatOps F}
    (MTS_BLOCK_SIZE : Z) (round_to_power_of_two : Z -> Z)
    (props : Properties F) (stop0 : bool) :
  let asked := u32 (size_ props "block_size" MTS_BLOCK_SIZE) in
  let this := SamplingIntegrator_new MTS_BLOCK_SIZE round_to_power_of_two props stop0 in
  let warnings :=
    SamplingIntegrator_new_warnings MTS_BLOCK_SIZE round_to_power_of_two props in
  m_block_size this = u32 (round_to_power_of_two asked)
  /\ (warnings = [] <-> m_block_size this = asked)
  /\ Forall (fun shown => fst shown = m_block_size this /\ snd shown = m_block_size this)
            warnings
  /\ (length warnings <= 1)%nat.
Proof.
  intros asked this warnings. subst this warnings.
  unfold SamplingIntegrator_new, SamplingIntegrator_new_warnings. fold asked.
  cbn [m_block_size].
  destruct (Z.eqb_spec (u32 (round_to_power_of_two asked)) asked) as [Heq | Hne]; simpl.
  - rewrite Heq. repeat split; auto.
  - repeat split; try (intros Hd; discriminate Hd || contradiction); auto.
Qed.

(** X9. For every integrator the constructor builds, the comparison with
    the sentinel on line 55 does not hold: [samples_per_pass] is stored in
    32 bits, the sentinel of [size_t] has 64.  The effective per-pass count
    is the smaller of the stored count and the total, also when the property
    is absent; then the stored count is [2^32 - 1], and a total of [2^32] or
    more that is no multiple of it is refused. *)
Theorem SamplingIntegrator_new_sentinel {F : Type} `{ScalarFloatOps F}
    (MTS_BLOCK_SIZE : Z) (round_to_power_of_two : Z -> Z)
    (props : Properties F) (stop0 : bool) :
  let this := SamplingIntegrator_new MTS_BLOCK_SIZE round_to_power_of_two props stop0 in
  0 <= m_samples_per_pass this < 2 ^ 32
  /\ (forall total_spp,
        effective_samples_per_pass this total_spp
        = Z.min (m_samples_per_pass this) total_spp)
  /\ (p_integers props !! "samples_per_pass" = None ->
      m_samples_per_pass this = 2 ^ 32 - 1
      /\ forall should_stop Spiral_new (sensor : Sensor F) ranges events,
           2 ^ 32 <= sample_count sensor ->
           sample_count sensor mod (2 ^ 32 - 1) <> 0 ->
           render should_stop Spiral_new this sensor ranges events
           = (Thrown (SampleCountNotMultiple (sample_count sensor) (2 ^ 32 - 1)), [])).
Proof.
  intros this.
  assert (Hm : m_samples_per_pass this
               = u32 (default SIZE_MAX (p_integers props !! "samples_per_pass")))
    by reflexivity.
  assert (Hrange : 0 <= m_samples_per_pass this < 2 ^ 32)
    by (rewrite Hm; apply u32_range).
  assert (Heff : forall total_spp,
            effective_samples_per_pass this total_spp
            = Z.min (m_samples_per_pass this) total_spp).
  { intros total_spp. unfold effective_samples_per_pass.
    destruct (Z.eqb_spec (m_samples_per_pass this) SIZE_MAX) as [Heq|_]; [|reflexivity].
    unfold SIZE_MAX in Heq. lia. }
  split; [exact Hrange|]. split; [exact Heff|].
  intros Hnone.
  assert (Hstored : m_samples_per_pass this = 2 ^ 32 - 1)
    by (rewrite Hm, Hnone; reflexivity).
  split; [exact Hstored|].
  intros should_stop Spiral_new sensor ranges events Hlarge Hmod.
  unfold render, start_job. rewrite effective_samples_per_pass_reset, Heff, Hstored.
  rewrite Z.min_l by lia.
  change (2 ^ 32 - 1 =? 0) with false. cbv iota.
  destruct (Z.eqb_spec (sample_count sensor mod (2 ^ 32 - 1)) 0) as [Hz|_];
    [contradiction|]. reflexivity.
Qed.

(** With nothing configured, [2^32] samples are refused. *)
Example render_refuses_large_default :
  fst (render should_stop_flag raster_spiral
              (SamplingIntegrator_new (F := float) 32 (fun z => z)
                 (mkProperties float ∅ ∅) false)
              (mkSensor film_2x1 4294967296 false 0%float 0%float) [(0, 1)] [])
  = Thrown (SampleCountNotMultiple 4294967296 4294967295).
Proof. vm_compute. reflexivity. Qed.

(** X10. A sample count of zero: with a stored per-pass count and a total
    that are not negative, [render()] takes the remainder by zero of line 57
    exactly when one of the two is zero, in both branches, before anything
    else is done. *)
Theorem render_zero_samples {F : Type} `{ScalarFloatOps F}
    (should_stop : SamplingIntegrator F -> F -> bool)
    (Spiral_new : Film -> Z -> Z -> Spiral)
    (this : SamplingIntegrator F) (sensor : Sensor F)
    (ranges : list (Z * Z)) (events : list (Event F)) (cancelled : bool) :
  0 <= m_samples_per_pass this -> 0 <= sample_count sensor ->
  (m_samples_per_pass this = 0 \/ sample_count sensor = 0 <->
   render should_stop Spiral_new this sensor ranges events = (DivisionByZero, []))
  /\ (m_samples_per_pass this = 0 \/ sample_count sensor = 0 <->
      render_wide this sensor cancelled = (DivisionByZero, [])).
Proof.
  intros Hm Ht.
  assert (Heff : m_samples_per_pass this = 0 \/ sample_count sensor = 0 <->
                 effective_samples_per_pass this (sample_count sensor) = 0).
  { unfold effective_samples_per_pass.
    destruct (Z.eqb_spec (m_samples_per_pass this) SIZE_MAX) as [Heq|Hne].
    - rewrite Heq. unfold SIZE_MAX. lia.
    - lia. }
  split; rewrite Heff.
  - unfold render, start_job. rewrite effective_samples_per_pass_reset.
    destruct (Z.eqb_spec (effective_samples_per_pass this (sample_count sensor)) 0)
      as [Hz|Hz].
    + split; [reflexivity | intros _; exact Hz].
    + split; [intros Hc; contradiction|].
      destruct (negb _); [intros Heq; discriminate Heq|].
      unfold run_job, finish. simpl.
      destruct (run _ _ _ _ _ _ _) as [st [e|]]; [intros Heq; discriminate Heq|].
      destruct (forallb l_left (r_loops st)); intros Heq; discriminate Heq.
  - unfold render_wide.
    destruct (Z.eqb_spec (effective_samples_per_pass this (sample_count sensor)) 0)
      as [Hz|Hz].
    + split; [reflexivity | intros _; exact Hz].
    + split; [intros Hc; contradiction|].
      destruct (negb _); intros Heq; discriminate Heq.
Qed.

Lemma render_zero_samples_witness :
  (m_samples_per_pass (integrator_1px 0 (-1)%float) = 0
   \/ sample_count (sensor_2x1 50) = 0 <->
   render should_stop_flag raster_spiral (integrator_1px 0 (-1)%float) (sensor_2x1 50)
          [(0, 2)] [Work 0 0%float]
   = (DivisionByZero, []))
  /\ (m_samples_per_pass (integrator_1px 0 (-1)%float) = 0
      \/ sample_count (sensor_2x1 50) = 0 <->
      render_wide (integrator_1px 0 (-1)%float) (sensor_2x1 50) false
      = (DivisionByZero, [])).
Proof.
  apply (render_zero_samples should_stop_flag raster_spiral (integrator_1px 0 (-1)%float)
           (sensor_2x1 50) [(0, 2)] [Work 0 0%float] false).
  - vm_compute. discriminate.
  - vm_compute. discriminate.
Defined.

(** ** More on the loop over a tile: every pixel of the tile, once *)

Lemma filter_on_pixel (X Y : Z) (p : Vector2) (l : list Z) :
  filter (fun c : Vector2 * Z => vx (fst c) = X /\ vy (fst c) = Y)
         (map (fun j => (p, j)) l)
  = if decide (vx p = X /\ vy p = Y) then map (fun j => (p, j)) l else [].
Proof.
  induction l as [|j l IH]; simpl.
  - destruct (decide _); reflexivity.
  - rewrite filter_cons, IH. simpl. destruct (decide _); reflexivity.
Qed.

Section TileCoverage.
Context {F : Type} `{ScalarFloatOps F}.
Variable morton_decode : Z -> Vector2.
Variable bs : Z.
Variable blk : Block.
Variable sample_count : Z.

(** The block size, and the order of the pixels: over the indices of a
    block, [morton_decode] meets every pixel of the square of side [bs], once. *)
Hypothesis bs_positive : 0 < bs.
Hypothesis square_fits : bs * bs < 2 ^ 32.
Hypothesis decode_inside : forall i,
  0 <= i < bs * bs -> 0 <= vx (morton_decode i) < bs /\ 0 <= vy (morton_decode i) < bs.
Hypothesis decode_injective : forall i i',
  0 <= i < bs * bs -> 0 <= i' < bs * bs -> morton_decode i = morton_decode i' -> i = i'.
Hypothesis decode_onto : forall x y,
  0 <= x < bs -> 0 <= y < bs -> exists i, 0 <= i < bs * bs /\ morton_decode i = mkVector2 x y.

(** The tile lies within a block, at an offset that is no negative number. *)
Hypothesis tile_width : 0 <= vx (b_size blk) <= bs.
Hypothesis tile_height : 0 <= vy (b_size blk) <= bs.
Hypothesis tile_left : 0 <= vx (b_offset blk) /\ vx (b_offset blk) + bs <= 2 ^ 32.
Hypothesis tile_top : 0 <= vy (b_offset blk) /\ vy (b_offset blk) + bs <= 2 ^ 32.

Lemma block_side_small : bs <= bs * bs /\ bs < 2 ^ 32.
Proof. split; nia. Qed.

Lemma outside_tile (i : Z) :
  0 <= i < bs * bs ->
  outside (morton_decode i) (b_size blk) = false
  <-> vx (morton_decode i) < vx (b_size blk) /\ vy (morton_decode i) < vy (b_size blk).
Proof.
  intros Hi. pose proof block_side_small as [_ Hside]. unfold outside.
  rewrite (u32_small (vx (b_size blk))), (u32_small (vy (b_size blk))) by lia.
  rewrite orb_false_iff, !Z.leb_gt. reflexivity.
Qed.

Lemma shifted_tile (i : Z) :
  0 <= i < bs * bs ->
  shifted (morton_decode i) (b_offset blk)
  = mkVector2 (vx (b_offset blk) + vx (morton_decode i))
              (vy (b_offset blk) + vy (morton_decode i)).
Proof.
  intros Hi. destruct (decode_inside i Hi) as [Hx Hy].
  pose proof block_side_small as [_ Hside]. unfold shifted.
  rewrite (u32_small (vx (b_offset blk))), (u32_small (vy (b_offset blk))) by lia.
  rewrite !u32_small by lia. f_equal; lia.
Qed.

(** The calls for the pixel [(x, y)] of the tile among the calls for the
    indices [a .. a + n - 1]: those of the one index that decodes to it. *)
Lemma pixel_pairs_of_a_pixel (x y i0 : Z) :
  0 <= x < vx (b_size blk) -> 0 <= y < vy (b_size blk) ->
  0 <= i0 < bs * bs -> morton_decode i0 = mkVector2 x y ->
  forall (n : nat) (a : Z),
    0 <= a -> a + Z.of_nat n <= bs * bs ->
    filter (fun c : Vector2 * Z =>
              vx (fst c) = vx (b_offset blk) + x /\ vy (fst c) = vy (b_offset blk) + y)
           (concat (map (pixel_pairs morton_decode blk sample_count) (zseq n a)))
    = if decide (a <= i0 < a + Z.of_nat n)
      then map (fun j => (mkVector2 (vx (b_offset blk) + x) (vy (b_offset blk) + y), j))
               (zseq (Z.to_nat sample_count) 0)
      else [].
Proof.
  intros Hx Hy Hi0 Hdec. induction n as [|n IH]; intros a Ha Hn.
  - simpl. destruct (decide _) as [Hin|_]; [lia | reflexivity].
  - cbn [zseq map concat]. rewrite filter_app.
    rewrite IH by lia.
    assert (Hia : 0 <= a < bs * bs) by lia.
    unfold pixel_pairs at 1.
    destruct (decide (a = i0)) as [-> | Hne].
    + assert (Hin : outside (morton_decode i0) (b_size blk) = false).
      { apply outside_tile; [exact Hi0|]. rewrite Hdec. simpl. lia. }
      rewrite Hin, (shifted_tile i0 Hi0), Hdec. cbn [vx vy].
      rewrite filter_on_pixel. cbn [vx vy].
      destruct (decide (vx (b_offset blk) + x = vx (b_offset blk) + x
                        /\ vy (b_offset blk) + y = vy (b_offset blk) + y)) as [_|Hno];
        [|exfalso; apply Hno; split; reflexivity].
      destruct (decide (i0 + 1 <= i0 < i0 + 1 + Z.of_nat n)) as [Hbad|_]; [lia|].
      destruct (decide (i0 <= i0 < i0 + Z.of_nat (S n))) as [_|Hno]; [|lia].
      apply app_nil_r.
    + assert (Hfirst : filter (fun c : Vector2 * Z =>
                                 vx (fst c) = vx (b_offset blk) + x
                                 /\ vy (fst c) = vy (b_offset blk) + y)
                              (if outside (morton_decode a) (b_size blk) then []
                               else map (fun j => (shifted (morton_decode a) (b_offset blk), j))
                                        (zseq (Z.to_nat sample_count) 0)) = []).
      { destruct (outside (morton_decode a) (b_size blk)); [reflexivity|].
        rewrite filter_on_pixel, (shifted_tile a Hia). cbn [vx vy].
        destruct (decide _) as [[Hpx Hpy]|_]; [|reflexivity].
        exfalso. apply Hne. apply decode_injective; [exact Hia | exact Hi0 |].
        rewrite Hdec. destruct (morton_decode a) as [ax ay]. simpl in *.
        f_equal; lia. }
      rewrite Hfirst. simpl.
      destruct (decide (a + 1 <= i0 < a + 1 + Z.of_nat n)) as [Hin|Hout];
        destruct (decide (a <= i0 < a + Z.of_nat (S n))) as [Hin'|Hout'];
        try reflexivity; lia.
Qed.

(** X11. A tile within a block whose pixels [morton_decode] meets once
    each: when nothing stops the scalar loop, every pixel of the tile is
    evaluated with the sample indices [0 .. sample_count - 1], in this
    order and once each, and no pixel outside the tile is evaluated. *)
Theorem render_block_covers_tile (this : SamplingIntegrator F)
    (sampler_sample_count sample_count_ : Z) :
  m_block_size this = bs ->
  sample_count = block_sample_count sampler_sample_count sample_count_ ->
  let calls :=
    map (fun c : SampleCall F => (sc_pixel c, sc_sample c))
        (render_block_scalar morton_decode (fun _ => false) this sampler_sample_count
                             blk sample_count_) in
  (forall x y,
     0 <= x < vx (b_size blk) -> 0 <= y < vy (b_size blk) ->
     filter (fun c : Vector2 * Z =>
               vx (fst c) = vx (b_offset blk) + x /\ vy (fst c) = vy (b_offset blk) + y)
            calls
     = map (fun j => (mkVector2 (vx (b_offset blk) + x) (vy (b_offset blk) + y), j))
           (zseq (Z.to_nat sample_count) 0))
  /\ Forall (fun c : Vector2 * Z =>
               vx (b_offset blk) <= vx (fst c) < vx (b_offset blk) + vx (b_size blk)
               /\ vy (b_offset blk) <= vy (fst c) < vy (b_offset blk) + vy (b_size blk))
            calls.
Proof.
  intros Hbs Hsc calls.
  assert (Hpc : pixel_count this = bs * bs).
  { unfold pixel_count. rewrite Hbs. apply u32_small. nia. }
  assert (Hcalls : calls
                   = concat (map (pixel_pairs morton_decode blk sample_count)
                                 (zseq (Z.to_nat (bs * bs)) 0))).
  { subst calls. unfold render_block_scalar. rewrite <- Hsc, Hpc.
    apply pixel_loop_never_stopped. }
  split.
  - intros x y Hx Hy.
    destruct (decode_onto x y) as (i0 & Hi0 & Hdec); [lia | lia |].
    rewrite Hcalls.
    rewrite (pixel_pairs_of_a_pixel x y i0 Hx Hy Hi0 Hdec) by (rewrite ?Z2Nat.id; nia).
    rewrite Z2Nat.id by nia.
    destruct (decide _) as [_|Hno]; [reflexivity | lia].
  - rewrite Hcalls. apply Forall_concat. apply Forall_fmap. apply Forall_forall.
    intros i Hi. apply list_elem_of_In, elem_of_zseq in Hi. rewrite Z2Nat.id in Hi by nia.
    assert (Hi' : 0 <= i < bs * bs) by lia.
    unfold pixel_pairs. simpl.
    destruct (outside (morton_decode i) (b_size blk)) eqn:Hout; [constructor|].
    apply outside_tile in Hout; [|exact Hi'].
    destruct (decode_inside i Hi') as [Hdx Hdy].
    apply Forall_fmap. apply Forall_forall. intros j _. unfold compose. cbn [fst].
    rewrite (shifted_tile i Hi'). cbn [vx vy]. lia.
Qed.

End TileCoverage.

(** An instance: the bit-interleaved order on a block of two by two, a tile
    two pixels wide and one high at (4, 6), two samples a pixel. *)
Lemma render_block_covers_tile_witness :
  (forall x y,
     0 <= x < 2 -> 0 <= y < 1 ->
     filter (fun c : Vector2 * Z => vx (fst c) = 4 + x /\ vy (fst c) = 6 + y)
            (map (fun c : SampleCall float => (sc_pixel c, sc_sample c))
                 (render_block_scalar morton_decode_bits (fun _ => false)
                    (mkSamplingIntegrator 2 2 (-1)%float false) 2
                    (mkBlock (mkVector2 4 6) (mkVector2 2 1)) 2))
     = map (fun j => (mkVector2 (4 + x) (6 + y), j)) (zseq 2 0))
  /\ Forall (fun c : Vector2 * Z =>
               4 <= vx (fst c) < 4 + 2 /\ 6 <= vy (fst c) < 6 + 1)
            (map (fun c : SampleCall float => (sc_pixel c, sc_sample c))
                 (render_block_scalar morton_decode_bits (fun _ => false)
                    (mkSamplingIntegrator 2 2 (-1)%float false) 2
                    (mkBlock (mkVector2 4 6) (mkVector2 2 1)) 2)).
Proof.
  apply (render_block_covers_tile morton_decode_bits 2
           (mkBlock (mkVector2 4 6) (mkVector2 2 1)) 2).
  - lia.
  - vm_compute. reflexivity.
  - intros i Hi. assert (Hc : i = 0 \/ i = 1 \/ i = 2 \/ i = 3) by lia.
    destruct Hc as [-> | [-> | [-> | ->]]]; vm_compute; repeat split; discriminate.
  - intros i i' Hi Hi'.
    assert (Hc : i = 0 \/ i = 1 \/ i = 2 \/ i = 3) by lia.
    assert (Hc' : i' = 0 \/ i' = 1 \/ i' = 2 \/ i' = 3) by lia.
    destruct Hc as [-> | [-> | [-> | ->]]];
      destruct Hc' as [-> | [-> | [-> | ->]]];
      vm_compute; intros Heq; first [reflexivity | discriminate Heq].
  - intros x y Hx Hy.
    assert (Hcx : x = 0 \/ x = 1) by lia. assert (Hcy : y = 0 \/ y = 1) by lia.
    destruct Hcx as [-> | ->]; destruct Hcy as [-> | ->].
    + exists 0. split; [lia | reflexivity].
    + exists 2. split; [lia | reflexivity].
    + exists 1. split; [lia | reflexivity].
    + exists 3. split; [lia | reflexivity].
  - simpl. lia.
  - simpl. lia.
  - simpl. lia.
  - simpl. lia.
  - reflexivity.
  - reflexivity.
Defined.
